(** * The synchronisation core of spvwallet (eight333.go)

    A shallow embedding of the message handlers of [SPVWallet]:
    [startChainDownload], [onMerkleBlock], [onTx], [onInv], [onGetData],
    [fPositiveHandler], [updateFilterAndSend] and [Rebroadcast].

    Every handler is a function from the wallet's state to an outcome, a new
    state and the list of the effects it performed, in the order in which the
    Go code performs them.  The header chain, the transaction store, the peer
    manager and the btcd library are collaborators whose code is not part of
    eight333.go: they are taken as one record of functions over an abstract
    collaborator state.

    A handler runs from its first statement to its return without another
    goroutine in between.  [go w.startChainDownload(p)] is an effect of the
    handler that starts it, and the call itself is a run of its own.  Taking
    and releasing [w.mutex] are effects; taking it never waits.  A receive on
    an empty open channel and a send on a full one end the run as [Blocked].
    [w.fPositives <- p] is the effect [EvFPositive p], and the loop of
    [fPositiveHandler] runs on the sequence of values its [select]
    receives.  Instants are integers, in nanoseconds since the epoch. *)

From stdpp Require Import base option list gmap strings.
From Stdlib Require Import ZArith Lia.

Local Open Scope Z_scope.

(** ** Machine integers *)

(** [uint32(x)] for an [int32] (or any integer) [x]. *)
Definition to_uint32 (z : Z) : Z := z mod 2 ^ 32.

(** [int32(x)] for a [uint32] (or any integer) [x]; also the result of
    arithmetic on [int32], which wraps around. *)
Definition to_int32 (z : Z) : Z := (z + 2 ^ 31) mod 2 ^ 32 - 2 ^ 31.

(** ** Data *)

(** [chainhash.Hash] is [[32]byte]; it is kept as the 256-bit number the
    bytes spell.  The zero value of the type is [0]. *)
Definition Hash : Type := Z.

Definition zeroHash : Hash := 0.

(** [maxHash], set by [init] from the string of sixty-four zeros. *)
Definition maxHash : Hash := zeroHash.

(** [time.Duration] counts nanoseconds. *)
Definition Hour : Z := 3600 * 1000000000.

Definition MAX_UNCONFIRMED_TIME : Z := Hour * 24 * 7.

Inductive ChainState := SYNCING | WAITING.

#[global] Instance ChainState_eq_dec : EqDecision ChainState.
Proof. solve_decision. Defined.

(** What the handlers use of a [*peer.Peer]: [ID()] and [LastBlock()], both
    [int32]. *)
Record Peer := mkPeer { ID : Z; LastBlock : Z }.

(** [wire.InvType] is a [uint32]. *)
Definition InvTypeError : Z := 0.
Definition InvTypeTx : Z := 1.
Definition InvTypeBlock : Z := 2.
Definition InvTypeFilteredBlock : Z := 3.

Record InvVect := mkInvVect { inv_Type : Z; inv_Hash : Hash }.

(** [wire.MsgInv] and [wire.MsgGetData] both carry an [InvList]. *)
Definition InvList : Type := list InvVect.

(** [wire.BlockHeader]. *)
Record BlockHeader := mkBlockHeader {
  Version : Z;
  PrevBlock : Hash;
  MerkleRoot : Hash;
  hdr_Timestamp : Z;
  Bits : Z;
  Nonce : Z
}.

(** [wire.MsgMerkleBlock]. *)
Record MsgMerkleBlock := mkMsgMerkleBlock {
  Header : BlockHeader;
  Transactions : Z;
  Hashes : list Hash;
  Flags : list Z
}.

(** Modelled from the spec: the declaration of the [reorg] structure that
    [CommitHeader] returns is not in eight333.go; the handler reads its
    [height] and hands the whole value to [db.Put].  The spec says that the
    descriptor carries the branch height and header. *)
Record reorg := mkReorg { height : Z; reorg_header : BlockHeader }.

(** A record of [Txns().GetAll]: the transaction id as a hex string, its
    height ([int32]) and its timestamp (nanoseconds since the epoch). *)
Record Txn := mkTxn { Txid : string; Height : Z; Timestamp : Z }.

(** A Go channel with a buffer: the values waiting in it, oldest first, its
    capacity, and whether it has been closed. *)
Record chan (A : Type) := mkChan {
  buf : list A;
  cap : nat;
  closed : bool
}.
Arguments mkChan {A} _ _ _.
Arguments buf {A} _.
Arguments cap {A} _.
Arguments closed {A} _.

(** Go errors, by their message. *)
Definition error : Type := string.

(** How a handler ends: it returns, it panics with a run-time error, or it
    waits on a channel. *)
Inductive Outcome (A : Type) :=
| Ok (a : A)
| Panic (r : string)
| Blocked.
Arguments Ok {A} _.
Arguments Panic {A} _.
Arguments Blocked {A}.

Section Engine.

(** [wire.MsgTx], [bloom.Filter] and the state of the collaborators. *)
Context {MsgTx Filter Ext : Type}.

(** The messages the handlers queue to peers. *)
Inductive Msg :=
| MsgGetBlocks (BlockLocatorHashes : list Hash) (HashStop : Hash)
| MsgGetData (l : InvList)
| MsgInv (l : InvList)
| MsgFilterLoad (f : Filter)
| MsgTxOut (tx : MsgTx).

(** The effects a handler performs. *)
Inductive Event :=
| EvLock | EvUnlock | EvRLock | EvRUnlock
| EvLog (msg : string)
| EvSetChainState (s : ChainState)
| EvHeight
| EvGetBlockLocatorHashes
| EvCommitHeader (h : BlockHeader)
| EvPut (r : reorg) (newBest : bool)
| EvProcessReorg (h : Z)
| EvGetAll
| EvMarkAsDead (h : Hash)
| EvIngest (tx : MsgTx) (h : Z)
| EvGimmeFilter
| EvGetPendingInv
| EvGet (h : Hash)
| EvCheckForMoreBlocks (h : Z)
| EvQueueMessage (p : Peer) (m : Msg)
| EvDisconnect (p : Peer)
| EvGoStartChainDownload (p : Peer)
| EvFPositive (p : Peer)
| EvCloseBlockQueue.

(** The collaborators.  A call that may change the collaborator's state
    returns the new state with its result. *)
Record Collaborators := mkCollaborators {
  (* btcd *)
  BlockHash : BlockHeader -> Hash;
  TxHash : MsgTx -> Hash;
  NewHashFromStr : string -> Hash + error;
  (* mblock.go *)
  checkMBlock : MsgMerkleBlock -> list Hash + error;
  (* w.blockchain *)
  db_Height : Ext -> Z;
  GetBlockLocatorHashes : Ext -> list Hash;
  CommitHeader : BlockHeader -> Ext -> (bool * option reorg * Z * option error) * Ext;
  db_Put : reorg -> bool -> Ext -> Ext;
  (* w.txstore *)
  processReorg : Z -> Ext -> option error * Ext;
  Txns_GetAll : bool -> Ext -> list Txn + error;
  Txns_Get : Hash -> Ext -> MsgTx + error;
  markAsDead : Hash -> Ext -> option error * Ext;
  Ingest : MsgTx -> Z -> Ext -> (Z * option error) * Ext;
  GimmeFilter : Ext -> Filter + error;
  GetPendingInv : Ext -> option InvList * option error;
  (* w.peerManager *)
  CheckForMoreBlocks : Z -> Ext -> bool * Ext;
  DownloadPeer : Ext -> option Peer;
  ConnectedPeers : Ext -> list Peer
}.

Variable C : Collaborators.

(** The state the handlers work on. *)
Record SPVWallet := mkSPVWallet {
  chainState : ChainState;
  blockQueue : chan Hash;
  toDownload : gmap Z Z;
  fpAccumulator : gmap Z Z;
  ext : Ext
}.

(** ** Handlers as state transformers *)

(** The outcome of a run, the state it leaves and the effects it performed,
    oldest first. *)
Record Res (A : Type) := mkRes {
  out : Outcome A;
  st : SPVWallet;
  evs : list Event
}.
Arguments mkRes {A} _ _ _.
Arguments out {A} _.
Arguments st {A} _.
Arguments evs {A} _.

Definition M (A : Type) : Type := SPVWallet -> Res A.

Definition ret {A} (a : A) : M A := fun w => mkRes (Ok a) w [].

Definition bind {A B} (c : M A) (k : A -> M B) : M B := fun w =>
  match c w with
  | mkRes (Ok a) w1 e1 =>
      match k a w1 with
      | mkRes o w2 e2 => mkRes o w2 (e1 ++ e2)
      end
  | mkRes (Panic r) w1 e1 => mkRes (Panic r) w1 e1
  | mkRes Blocked w1 e1 => mkRes Blocked w1 e1
  end.

Notation "x <- c ;; k" := (bind c (fun x => k))
  (at level 100, c at next level, right associativity).
Notation "c ;;; k" := (bind c (fun _ => k))
  (at level 100, right associativity).

Definition emit (e : Event) : M unit := fun w => mkRes (Ok tt) w [e].

Definition panic {A} (r : string) : M A := fun w => mkRes (Panic r) w [].

Definition block {A} : M A := fun w => mkRes Blocked w [].

Definition get : M SPVWallet := fun w => mkRes (Ok w) w [].

(** [defer func() { if r := recover(); r != nil { handler(r) } }()] around
    [body]. *)
Definition recover (body : M unit) (handler : string -> M unit) : M unit := fun w =>
  match body w with
  | mkRes (Panic r) w1 e1 =>
      match handler r w1 with
      | mkRes o w2 e2 => mkRes o w2 (e1 ++ e2)
      end
  | res => res
  end.

(** [defer d] around [body]: [d] runs when [body] returns and when it
    panics, and a panic of [body] goes on after it. *)
Definition defer (d : M unit) (body : M unit) : M unit := fun w =>
  match body w with
  | mkRes Blocked w1 e1 => mkRes Blocked w1 e1
  | mkRes o w1 e1 =>
      match d w1 with
      | mkRes (Ok _) w2 e2 => mkRes o w2 (e1 ++ e2)
      | mkRes o' w2 e2 => mkRes o' w2 (e1 ++ e2)
      end
  end.

(** [for _, x := range l { f x }]. *)
Fixpoint for_each {A} (f : A -> M unit) (l : list A) : M unit :=
  match l with
  | [] => ret tt
  | x :: l' => f x ;;; for_each f l'
  end.

(** *** Primitive effects *)

Definition log (msg : string) : M unit := emit (EvLog msg).

Definition with_ext (f : Ext -> Ext) (w : SPVWallet) : SPVWallet :=
  mkSPVWallet (chainState w) (blockQueue w) (toDownload w) (fpAccumulator w) (f (ext w)).

Definition with_chainState (s : ChainState) (w : SPVWallet) : SPVWallet :=
  mkSPVWallet s (blockQueue w) (toDownload w) (fpAccumulator w) (ext w).

Definition with_blockQueue (q : chan Hash) (w : SPVWallet) : SPVWallet :=
  mkSPVWallet (chainState w) q (toDownload w) (fpAccumulator w) (ext w).

Definition with_toDownload (m : gmap Z Z) (w : SPVWallet) : SPVWallet :=
  mkSPVWallet (chainState w) (blockQueue w) m (fpAccumulator w) (ext w).

Definition with_fpAccumulator (m : gmap Z Z) (w : SPVWallet) : SPVWallet :=
  mkSPVWallet (chainState w) (blockQueue w) (toDownload w) m (ext w).

(** A read of the collaborator's state that the trace does not record. *)
Definition read {A} (f : Ext -> A) : M A := fun w => mkRes (Ok (f (ext w))) w [].

(** A collaborator call that reads the collaborator's state. *)
Definition query {A} (e : Event) (f : Ext -> A) : M A := fun w =>
  mkRes (Ok (f (ext w))) w [e].

(** A collaborator call that may change the collaborator's state. *)
Definition call {A} (e : Event) (f : Ext -> A * Ext) : M A := fun w =>
  let r := f (ext w) in mkRes (Ok (fst r)) (with_ext (fun _ => snd r) w) [e].

Definition ChainState_ : M ChainState := fun w => mkRes (Ok (chainState w)) w [].

Definition SetChainState (s : ChainState) : M unit := fun w =>
  mkRes (Ok tt) (with_chainState s w) [EvSetChainState s].

Definition QueueMessage (p : Peer) (m : Msg) : M unit := emit (EvQueueMessage p m).

Definition Disconnect (p : Peer) : M unit := emit (EvDisconnect p).

(** *** Channel operations on [w.blockQueue] *)

(** [<-w.blockQueue]: the oldest value; the zero value at once when the
    channel is closed and drained; otherwise the receive waits. *)
Definition recv_blockQueue : M Hash := fun w =>
  let q := blockQueue w in
  match buf q with
  | h :: rest => mkRes (Ok h) (with_blockQueue (mkChan rest (cap q) (closed q)) w) []
  | [] => if closed q then mkRes (Ok zeroHash) w [] else mkRes Blocked w []
  end.

(** [w.blockQueue <- h]: a run-time panic on a closed channel; it waits
    while the buffer is full. *)
Definition send_blockQueue (h : Hash) : M unit := fun w =>
  let q := blockQueue w in
  if closed q then mkRes (Panic "send on closed channel") w []
  else if (length (buf q) <? cap q)%nat
       then mkRes (Ok tt) (with_blockQueue (mkChan (buf q ++ [h]) (cap q) false) w) []
       else mkRes Blocked w [].

(** [close(w.blockQueue)]: a run-time panic on a closed channel. *)
Definition close_blockQueue : M unit := fun w =>
  let q := blockQueue w in
  if closed q then mkRes (Panic "close of closed channel") w []
  else mkRes (Ok tt) (with_blockQueue (mkChan (buf q) (cap q) true) w) [EvCloseBlockQueue].

(** [len(w.blockQueue)]. *)
Definition len_blockQueue : M nat := fun w => mkRes (Ok (length (buf (blockQueue w)))) w [].

(** ** The handlers *)

Definition updateFilterAndSend (p : Peer) : M unit :=
  r <- query EvGimmeFilter (GimmeFilter C) ;;
  match r with
  | inr err => log "Error creating filter"
  | inl filt =>
      QueueMessage p (MsgFilterLoad filt) ;;;
      log "Sent filter to Peer"
  end.

Definition Rebroadcast : M unit :=
  r <- query EvGetPendingInv (GetPendingInv C) ;;
  match snd r with
  | Some err => log "Rebroadcast error"
  | None => ret tt
  end ;;;
  match fst r with
  | None => panic "invalid memory address or nil pointer dereference"
  | Some invMsg =>
      if (length invMsg =? 0)%nat then ret tt
      else
        peers <- read (ConnectedPeers C) ;;
        for_each (fun peer => QueueMessage peer (MsgInv invMsg)) peers
  end.

(** The guard of lines 51 and 159:
    [w.blockchain.ChainState() == SYNCING && w.peerManager.DownloadPeer() != nil
     && w.peerManager.DownloadPeer().ID() == p.ID()]. *)
Definition syncingWith (p : Peer) : M bool :=
  s <- ChainState_ ;;
  dp <- read (DownloadPeer C) ;;
  ret (bool_decide (s = SYNCING) &&
       match dp with Some d => ID d =? ID p | None => false end).

(** The body of [startChainDownload], which runs with [w.mutex] locked. *)
Definition startChainDownload_locked (p : Peer) : M unit :=
  s <- ChainState_ ;;
  if bool_decide (s = SYNCING) then
    height <- query EvHeight (db_Height C) ;;
    if to_uint32 (LastBlock p) <=? height then
      moar <- call (EvCheckForMoreBlocks height) (CheckForMoreBlocks C height) ;;
      if negb moar then
        log "Chain download complete" ;;;
        SetChainState WAITING ;;;
        Rebroadcast ;;;
        close_blockQueue
      else ret tt
    else
      hashes <- query EvGetBlockLocatorHashes (GetBlockLocatorHashes C) ;;
      QueueMessage p (MsgGetBlocks hashes maxHash)
  else ret tt.

Definition startChainDownload (p : Peer) : M unit :=
  recover
    (emit EvLock ;;;
     defer (emit EvUnlock) (startChainDownload_locked p))
    (fun r => log "Unhandled error in startChainDownload").

(** One round of the loop of lines 103 to 117, for [txns[i]]. *)
Definition sweepTxn (now : Z) (t : Txn) : M unit :=
  if (Timestamp t + MAX_UNCONFIRMED_TIME <? now) && (Height t =? 0) then
    log "Marking tx as dead" ;;;
    match NewHashFromStr C (Txid t) with
    | inr err => log err
    | inl h =>
        err <- call (EvMarkAsDead h) (markAsDead C h) ;;
        match err with
        | Some e => log e
        | None => ret tt
        end
    end
  else ret tt.

(** Lines 96 to 118; [now] is what [time.Now()] returns. *)
Definition sweep (now : Z) : M unit :=
  s <- ChainState_ ;;
  if bool_decide (s = WAITING) then
    r <- query EvGetAll (Txns_GetAll C false) ;;
    match r with
    | inr err => log err
    | inl txns => for_each (sweepTxn now) (rev txns)
    end
  else ret tt.

Definition set_toDownload (txid : Hash) (h : Z) : M unit := fun w =>
  mkRes (Ok tt) (with_toDownload (<[txid := h]> (toDownload w)) w) [].

(** Lines 60 to 119: what [onMerkleBlock] does once the order of the block
    has been accepted. *)
Definition onMerkleBlock_ordered (p : Peer) (m : MsgMerkleBlock) (now : Z) : M unit :=
  match checkMBlock C m with
  | inr err =>
      log "Peer sent an invalid MerkleBlock" ;;;
      Disconnect p
  | inl txids =>
      r <- call (EvCommitHeader (Header m)) (CommitHeader C (Header m)) ;;
      let '(newBlock, reorgAt, blockHeight, err) := r in
      match err with
      | Some e => log e
      | None =>
          if negb newBlock then ret tt
          else
            match reorgAt with
            | Some reorg =>
                err <- call (EvProcessReorg (height reorg))
                            (processReorg C (height reorg)) ;;
                match err with
                | Some e => log e
                | None => ret tt
                end ;;;
                SetChainState SYNCING ;;;
                call (EvPut reorg true) (fun x => (tt, db_Put C reorg true x)) ;;;
                emit (EvGoStartChainDownload p)
            | None =>
                for_each (fun txid =>
                            emit EvLock ;;;
                            set_toDownload txid (to_int32 blockHeight) ;;;
                            emit EvUnlock) txids ;;;
                log "Received Merkle Block" ;;;
                n <- len_blockQueue ;;
                s <- ChainState_ ;;
                (if (n =? 0)%nat && bool_decide (s = SYNCING)
                 then emit (EvGoStartChainDownload p)
                 else ret tt) ;;;
                sweep now
            end
      end
  end.

Definition onMerkleBlock (p : Peer) (m : MsgMerkleBlock) (now : Z) : M unit :=
  g <- syncingWith p ;;
  if g then
    queueHash <- recv_blockQueue ;;
    let headerHash := BlockHash C (Header m) in
    if negb (headerHash =? queueHash) then
      log "Peer is sending us blocks out of order" ;;;
      Disconnect p
    else onMerkleBlock_ordered p m now
  else onMerkleBlock_ordered p m now.

Definition onTx (p : Peer) (m : MsgTx) : M unit :=
  emit EvRLock ;;;
  w <- get ;;
  let height := default 0 (toDownload w !! TxHash C m) in
  emit EvRUnlock ;;;
  r <- call (EvIngest m height) (Ingest C m height) ;;
  let '(hits, err) := r in
  match err with
  | Some e => log "Error ingesting tx"
  | None =>
      if hits =? 0 then
        log "Tx had no hits, filter false positive." ;;;
        emit (EvFPositive p)
      else
        updateFilterAndSend p ;;;
        log "Tx ingested and matches utxo/adrs."
  end.

(** One round of the loop of [onInv]. *)
Definition onInv_item (p : Peer) (inv : InvVect) : M unit :=
  if inv_Type inv =? InvTypeBlock then
    QueueMessage p (MsgGetData [mkInvVect InvTypeFilteredBlock (inv_Hash inv)]) ;;;
    g <- syncingWith p ;;
    if g then send_blockQueue (inv_Hash inv) else ret tt
  else if inv_Type inv =? InvTypeTx then
    QueueMessage p (MsgGetData [inv])
  else ret tt.

(** The function that [onInv] starts with [go]. *)
Definition onInv (p : Peer) (m : InvList) : M unit :=
  recover (for_each (onInv_item p) m) (fun err => log err).

Definition onGetData (p : Peer) (m : InvList) : M unit :=
  log "Received getdata request from Peer" ;;;
  for_each (fun thing =>
              if inv_Type thing =? InvTypeTx then
                r <- query (EvGet (inv_Hash thing)) (Txns_Get C (inv_Hash thing)) ;;
                match r with
                | inr err => log "Error getting tx"
                | inl tx => QueueMessage p (MsgTxOut tx)
                end
              else log "We only respond to tx requests, ignoring") m ;;;
  log "Sent requested items to Peer".

Definition set_fpAccumulator (id : Z) (n : Z) : M unit := fun w =>
  mkRes (Ok tt) (with_fpAccumulator (<[id := n]> (fpAccumulator w)) w) [].

(** The case [peer := <-w.fPositives] of the loop of [fPositiveHandler]. *)
Definition fPositive (peer : Peer) : M unit :=
  emit EvRLock ;;;
  w <- get ;;
  let falsePostives := default 0 (fpAccumulator w !! ID peer) in
  emit EvRUnlock ;;;
  let falsePostives := to_int32 (falsePostives + 1) in
  falsePostives <-
    (if 7 <? falsePostives then
       updateFilterAndSend peer ;;;
       log "Reset false positives for Peer" ;;;
       ret 0
     else ret falsePostives) ;;
  emit EvLock ;;;
  set_fpAccumulator (ID peer) falsePostives ;;;
  emit EvUnlock.

(** What the [select] of [fPositiveHandler] receives. *)
Inductive Select := FromFPositives (peer : Peer) | FromQuit.

(** [fPositiveHandler] on the sequence of values its [select] receives; it
    waits when there is none. *)
Fixpoint fPositiveHandler (sel : list Select) : M unit :=
  match sel with
  | [] => block
  | FromFPositives peer :: sel' => fPositive peer ;;; fPositiveHandler sel'
  | FromQuit :: _ => ret tt
  end.

(** The calls into the engine, taken one at a time; [now] is what
    [time.Now()] returns during the call. *)
Inductive Handler :=
| StartChainDownload (p : Peer)
| OnMerkleBlock (p : Peer) (m : MsgMerkleBlock) (now : Z)
| OnTx (p : Peer) (m : MsgTx)
| OnInv (p : Peer) (m : InvList)
| OnGetData (p : Peer) (m : InvList)
| FPositiveHandler (sel : list Select).

Definition handle (h : Handler) : M unit :=
  match h with
  | StartChainDownload p => startChainDownload p
  | OnMerkleBlock p m now => onMerkleBlock p m now
  | OnTx p m => onTx p m
  | OnInv p m => onInv p m
  | OnGetData p m => onGetData p m
  | FPositiveHandler sel => fPositiveHandler sel
  end.

(** The state after a sequence of calls, whatever their outcomes. *)
Definition handleAll (hs : list Handler) (w : SPVWallet) : SPVWallet :=
  fold_left (fun w' h => st (handle h w')) hs w.

End Engine.

Arguments Collaborators : clear implicits.
Arguments mkRes {MsgTx Filter Ext A} _ _ _.
Arguments out {MsgTx Filter Ext A} _.
Arguments st {MsgTx Filter Ext A} _.
Arguments evs {MsgTx Filter Ext A} _.
Arguments SPVWallet : clear implicits.
Arguments Msg : clear implicits.
Arguments Event : clear implicits.
Arguments Handler : clear implicits.

(** ** A scripted set of collaborators

    Stores that answer from a script and record what they are asked to
    change; they make the handlers run on concrete inputs. *)
Module Demo.

Record Script := mkScript {
  s_Height : Z;
  s_Locator : list Hash;
  s_Commit : bool * option reorg * Z * option error;
  s_Reorg : option error;
  s_Txns : list Txn + error;
  s_Undead : list Hash;
  s_Ingest : Z * option error;
  s_Filter : Z + error;
  s_Pending : option InvList * option error;
  s_Moar : bool;
  s_DownloadPeer : option Peer;
  s_Peers : list Peer;
  s_committed : list BlockHeader;
  s_rolledBack : list Z;
  s_put : list reorg;
  s_dead : list Hash
}.

Definition commit (h : BlockHeader) (x : Script) : Script :=
  mkScript (s_Height x) (s_Locator x) (s_Commit x) (s_Reorg x) (s_Txns x) (s_Undead x)
           (s_Ingest x) (s_Filter x) (s_Pending x) (s_Moar x) (s_DownloadPeer x) (s_Peers x)
           (s_committed x ++ [h]) (s_rolledBack x) (s_put x) (s_dead x).

Definition rollBack (h : Z) (x : Script) : Script :=
  mkScript (s_Height x) (s_Locator x) (s_Commit x) (s_Reorg x) (s_Txns x) (s_Undead x)
           (s_Ingest x) (s_Filter x) (s_Pending x) (s_Moar x) (s_DownloadPeer x) (s_Peers x)
           (s_committed x) (s_rolledBack x ++ [h]) (s_put x) (s_dead x).

Definition putBest (r : reorg) (x : Script) : Script :=
  mkScript (s_Height x) (s_Locator x) (s_Commit x) (s_Reorg x) (s_Txns x) (s_Undead x)
           (s_Ingest x) (s_Filter x) (s_Pending x) (s_Moar x) (s_DownloadPeer x) (s_Peers x)
           (s_committed x) (s_rolledBack x) (s_put x ++ [r]) (s_dead x).

Definition bury (h : Hash) (x : Script) : Script :=
  mkScript (s_Height x) (s_Locator x) (s_Commit x) (s_Reorg x) (s_Txns x) (s_Undead x)
           (s_Ingest x) (s_Filter x) (s_Pending x) (s_Moar x) (s_DownloadPeer x) (s_Peers x)
           (s_committed x) (s_rolledBack x) (s_put x) (s_dead x ++ [h]).

Definition hexDigit (c : Ascii.ascii) : option Z :=
  let n := Z.of_N (Ascii.N_of_ascii c) in
  if (48 <=? n) && (n <=? 57) then Some (n - 48)
  else if (97 <=? n) && (n <=? 102) then Some (n - 87)
  else if (65 <=? n) && (n <=? 70) then Some (n - 55)
  else None.

Fixpoint hexValue (acc : Z) (s : string) : option Z :=
  match s with
  | EmptyString => Some acc
  | String c s' =>
      match hexDigit c with
      | Some d => hexValue (16 * acc + d) s'
      | None => None
      end
  end.

(** The string is refused when it is longer than sixty-four characters or
    is not hexadecimal. *)
Definition parseHash (s : string) : Hash + error :=
  if (64 <? String.length s)%nat then inr "max hash string length is 64 bytes"
  else match hexValue 0 s with
       | Some h => inl h
       | None => inr "encoding/hex: invalid byte"
       end.

Definition scripted : Collaborators Z Z Script :=
  {| BlockHash := fun h => MerkleRoot h + Nonce h;
     TxHash := fun tx => tx;
     NewHashFromStr := parseHash;
     checkMBlock := fun m =>
       if Transactions m <? Z.of_nat (length (Hashes m))
       then inr "more hashes than transactions"
       else inl (Hashes m);
     db_Height := s_Height;
     GetBlockLocatorHashes := s_Locator;
     CommitHeader := fun h x => (s_Commit x, commit h x);
     db_Put := fun r _ x => putBest r x;
     processReorg := fun h x => (s_Reorg x, rollBack h x);
     Txns_GetAll := fun _ x => s_Txns x;
     Txns_Get := fun h x => if bool_decide (h ∈ s_dead x) then inr "not found" else inl h;
     markAsDead := fun h x =>
       if bool_decide (h ∈ s_Undead x) then (Some "cannot mark as dead", x)
       else (None, bury h x);
     Ingest := fun _ _ x => (s_Ingest x, x);
     GimmeFilter := s_Filter;
     GetPendingInv := s_Pending;
     CheckForMoreBlocks := fun _ x => (s_Moar x, x);
     DownloadPeer := s_DownloadPeer;
     ConnectedPeers := s_Peers |}.

Definition alice : Peer := mkPeer 1 500.
Definition bob : Peer := mkPeer 2 (-1).

Definition day : Z := 24 * Hour.

Definition txns : list Txn :=
  [ mkTxn "0a" 0 (1000 * day - 8 * day);
    mkTxn "0b" 0 (1000 * day - 2 * day);
    mkTxn "zz" 0 (1000 * day - 9 * day);
    mkTxn "0c" 0 (1000 * day - 10 * day);
    mkTxn "0d" 120 (1000 * day - 30 * day);
    mkTxn "0e" 0 (1000 * day - 7 * day) ].

Definition script : Script :=
  {| s_Height := 500;
     s_Locator := [7; 6; 5];
     s_Commit := (true, None, 501, None);
     s_Reorg := None;
     s_Txns := inl txns;
     s_Undead := [12];
     s_Ingest := (0, None);
     s_Filter := inl 99;
     s_Pending := (Some [mkInvVect InvTypeTx 41], None);
     s_Moar := false;
     s_DownloadPeer := Some alice;
     s_Peers := [alice; bob];
     s_committed := [];
     s_rolledBack := [];
     s_put := [];
     s_dead := [] |}.

Definition withCommit (r : bool * option reorg * Z * option error) (x : Script) : Script :=
  mkScript (s_Height x) (s_Locator x) r (s_Reorg x) (s_Txns x) (s_Undead x)
           (s_Ingest x) (s_Filter x) (s_Pending x) (s_Moar x) (s_DownloadPeer x) (s_Peers x)
           (s_committed x) (s_rolledBack x) (s_put x) (s_dead x).

Definition withIngest (r : Z * option error) (x : Script) : Script :=
  mkScript (s_Height x) (s_Locator x) (s_Commit x) (s_Reorg x) (s_Txns x) (s_Undead x)
           r (s_Filter x) (s_Pending x) (s_Moar x) (s_DownloadPeer x) (s_Peers x)
           (s_committed x) (s_rolledBack x) (s_put x) (s_dead x).

Definition withFilter (r : Z + error) (x : Script) : Script :=
  mkScript (s_Height x) (s_Locator x) (s_Commit x) (s_Reorg x) (s_Txns x) (s_Undead x)
           (s_Ingest x) r (s_Pending x) (s_Moar x) (s_DownloadPeer x) (s_Peers x)
           (s_committed x) (s_rolledBack x) (s_put x) (s_dead x).

Definition header (root : Hash) : BlockHeader := mkBlockHeader 1 0 root 0 0 0.

Definition block (root : Hash) (txids : list Hash) : MsgMerkleBlock :=
  mkMsgMerkleBlock (header root) (Z.of_nat (length txids)) txids [].

(** A wallet that is syncing from [alice] and expects blocks 21 and 22. *)
Definition syncing (x : Script) : SPVWallet Script :=
  mkSPVWallet SYNCING (mkChan [21; 22] 32 false) ∅ ∅ x.

(** A wallet that has caught up. *)
Definition waiting (x : Script) : SPVWallet Script :=
  mkSPVWallet WAITING (mkChan [] 32 true) ∅ ∅ x.

(** A wallet that a reorganisation sent back to syncing after it had
    caught up: the queue stays closed. *)
Definition resyncing (x : Script) : SPVWallet Script :=
  mkSPVWallet SYNCING (mkChan [] 32 true) ∅ ∅ x.

End Demo.

(** ** Observations on runs *)

Section Observations.

Context {MsgTx Filter Ext : Type}.
Variable C : Collaborators MsgTx Filter Ext.

(** The state in which [onMerkleBlock] reaches line 60, when the order check
    of lines 51 to 59 lets the block through. *)
Definition orderCheck (p : Peer) (m : MsgMerkleBlock) (w : SPVWallet Ext) :
    option (SPVWallet Ext) :=
  match out (syncingWith C p w) with
  | Ok true =>
      let r := recv_blockQueue (MsgTx := MsgTx) (Filter := Filter) w in
      match out r with
      | Ok queueHash =>
          if BlockHash C (Header m) =? queueHash then Some (st r) else None
      | _ => None
      end
  | _ => Some w
  end.

(** The block is one for which no header gets committed: its proof is
    invalid, or the commit fails, or the header is not new. *)
Definition notCommitted (m : MsgMerkleBlock) (x : Ext) : bool :=
  match checkMBlock C m with
  | inr _ => true
  | inl _ =>
      let '(newBlock, _, _, err) := fst (CommitHeader C (Header m) x) in
      bool_decide (err <> None) || negb newBlock
  end.

(** The effects of [updateFilterAndSend], which leaves the state as it is:
    the filter is asked for, and queued to the peer when there is one. *)
Definition refresh (p : Peer) (x : Ext) : list (Event MsgTx Filter) :=
  EvGimmeFilter ::
  match GimmeFilter C x with
  | inl filt => [EvQueueMessage p (MsgFilterLoad filt); EvLog "Sent filter to Peer"]
  | inr _ => [EvLog "Error creating filter"]
  end.

(** The effects of [Rebroadcast], which leaves the state as it is: the
    pending inventory is asked for, and queued to every connected peer when
    it is not empty. *)
Definition announce (x : Ext) : list (Event MsgTx Filter) :=
  EvGetPendingInv ::
  match snd (GetPendingInv C x) with
  | Some _ => [EvLog "Rebroadcast error"]
  | None => []
  end ++
  match fst (GetPendingInv C x) with
  | Some invMsg =>
      if (length invMsg =? 0)%nat then []
      else map (fun peer => EvQueueMessage peer (MsgInv invMsg)) (ConnectedPeers C x)
  | None => []
  end.

(** The effects of one miss that stays under the threshold. *)
Definition quiet : list (Event MsgTx Filter) := [EvRLock; EvRUnlock; EvLock; EvUnlock].

(** A transaction is stale at [now]: it has no height and its timestamp is
    more than seven days (in nanoseconds) old. *)
Definition Stale (now : Z) (t : Txn) : Prop :=
  Height t = 0 /\ 604800000000000 < now - Timestamp t.

#[global] Instance Stale_dec (now : Z) (t : Txn) : Decision (Stale now t).
Proof. unfold Stale. apply _. Defined.

(** The hash under which the sweep marks a transaction dead, if it does. *)
Definition deadHash (now : Z) (t : Txn) : option Hash :=
  if decide (Stale now t)
  then match NewHashFromStr C (Txid t) with
       | inl h => Some h
       | inr _ => None
       end
  else None.

(** The hashes that a run handed to [markAsDead], oldest first. *)
Definition markedDead (l : list (Event MsgTx Filter)) : list Hash :=
  omap (fun e => match e with EvMarkAsDead h => Some h | _ => None end) l.

(** The effects that belong to the sweep. *)
Definition isSweep (e : Event MsgTx Filter) : bool :=
  match e with
  | EvGetAll | EvMarkAsDead _ => true
  | _ => false
  end.

(** Messages queued to peers. *)
Definition isSend (e : Event MsgTx Filter) : bool :=
  match e with
  | EvQueueMessage _ _ => true
  | _ => false
  end.

(** Calls into the header chain and into the transaction store. *)
Definition isStoreCall (e : Event MsgTx Filter) : bool :=
  match e with
  | EvSetChainState _ | EvHeight | EvGetBlockLocatorHashes | EvCommitHeader _
  | EvPut _ _ | EvProcessReorg _ | EvGetAll | EvMarkAsDead _ | EvIngest _ _
  | EvGimmeFilter | EvGetPendingInv | EvGet _ => true
  | _ => false
  end.

(** Follows [w.mutex] along the effects of a run, from [held]: [None] when a
    message is queued or a store is called while the mutex is held,
    otherwise whether it is held at the end. *)
Fixpoint lockScan (held : bool) (l : list (Event MsgTx Filter)) : option bool :=
  match l with
  | [] => Some held
  | EvLock :: l' | EvRLock :: l' => lockScan true l'
  | EvUnlock :: l' | EvRUnlock :: l' => lockScan false l'
  | e :: l' => if held && (isSend e || isStoreCall e) then None else lockScan held l'
  end.

(** A run that starts in a state where [I] holds performs effects that
    satisfy [Q] and ends in a state where [I] holds. *)
Definition respects {A} (I : SPVWallet Ext -> Prop) (Q : list (Event MsgTx Filter) -> Prop)
    (c : M (MsgTx := MsgTx) (Filter := Filter) (Ext := Ext) A) : Prop :=
  forall w, I w -> Q (evs (c w)) /\ I (st (c w)).

(** ** Further observations *)

(** A handler that returns from every state: it neither waits nor ends in a
    run-time error. *)
Definition completes {A} (c : M (MsgTx := MsgTx) (Filter := Filter) (Ext := Ext) A) : Prop :=
  forall w, exists a, out (c w) = Ok a.

(** The requests that [onInv] queues to the peer for an inventory: one for
    each block, asked for as a filtered block, and one for each transaction. *)
Definition requests (p : Peer) (m : InvList) : list (Event MsgTx Filter) :=
  omap (fun inv =>
          if inv_Type inv =? InvTypeBlock
          then Some (EvQueueMessage p
                       (MsgGetData [mkInvVect InvTypeFilteredBlock (inv_Hash inv)]))
          else if inv_Type inv =? InvTypeTx
               then Some (EvQueueMessage p (MsgGetData [inv]))
               else None) m.

(** The hashes of the blocks that an inventory announces, in its order. *)
Definition announced (m : InvList) : list Hash :=
  omap (fun inv => if inv_Type inv =? InvTypeBlock then Some (inv_Hash inv) else None) m.

(** The transactions that the store has for the requests of a [getdata]. *)
Definition served (p : Peer) (x : Ext) (m : InvList) : list (Event MsgTx Filter) :=
  omap (fun thing =>
          if inv_Type thing =? InvTypeTx
          then match Txns_Get C (inv_Hash thing) x with
               | inl tx => Some (EvQueueMessage p (MsgTxOut tx))
               | inr _ => None
               end
          else None) m.

(** The messages that a run queued to peers, oldest first. *)
Definition sends (l : list (Event MsgTx Filter)) : list (Event MsgTx Filter) :=
  filter (fun e => isSend e = true) l.

(** The effect is no message to, and no disconnection of, a peer other than
    [p]. *)
Definition toSender (p : Peer) (e : Event MsgTx Filter) : Prop :=
  match e with
  | EvQueueMessage q _ | EvDisconnect q => q = p
  | _ => True
  end.

(** The misses of the peer [id] that [fPositiveHandler] receives before it
    is told to quit. *)
Fixpoint misses (id : Z) (sel : list Select) : Z :=
  match sel with
  | [] => 0
  | FromQuit :: _ => 0
  | FromFPositives q :: sel' => (if ID q =? id then 1 else 0) + misses id sel'
  end.

(** The calls of [GimmeFilter] in a run. *)
Definition refreshes (l : list (Event MsgTx Filter)) : Z :=
  Z.of_nat (length (omap (fun e => match e with EvGimmeFilter => Some tt | _ => None end) l)).

(** Every counter of [fpAccumulator] is between 0 and 7. *)
Definition bounded (w : SPVWallet Ext) : Prop :=
  map_Forall (fun _ v => 0 <= v <= 7) (fpAccumulator w).


(** The two wallets differ at most in the state of the collaborators. *)
Definition sameEngine (w0 w : SPVWallet Ext) : Prop :=
  chainState w = chainState w0 /\
  blockQueue w = blockQueue w0 /\
  toDownload w = toDownload w0 /\
  fpAccumulator w = fpAccumulator w0.

(** The effect is no disconnection. *)
Definition keepsPeer (e : Event MsgTx Filter) : Prop :=
  match e with
  | EvDisconnect _ => False
  | _ => True
  end.

(** The effect is one of the sweep, or a line of the log. *)
Definition sweepOrLog (e : Event MsgTx Filter) : Prop :=
  match e with
  | EvGetAll | EvMarkAsDead _ | EvLog _ => True
  | _ => False
  end.


(** The staleness sweep as the specification words it, for the
    transactions [l] in the order in which they are visited and a store in
    state [x]: a transaction that is not stale is passed over; a stale one is
    announced in the log, and then either its id does not parse, which is
    logged, or it is handed to [markAsDead], whose error, if any, is logged;
    in every case the sweep goes on with the next transaction, with the store
    as [markAsDead] left it. *)
Fixpoint sweepEffects (now : Z) (l : list Txn) (x : Ext) : list (Event MsgTx Filter) :=
  match l with
  | [] => []
  | t :: l' =>
      if decide (Stale now t)
      then EvLog "Marking tx as dead" ::
           match NewHashFromStr C (Txid t) with
           | inr e => EvLog e :: sweepEffects now l' x
           | inl h =>
               EvMarkAsDead h ::
               match fst (markAsDead C h x) with
               | Some e => [EvLog e]
               | None => []
               end ++ sweepEffects now l' (snd (markAsDead C h x))
           end
      else sweepEffects now l' x
  end.

(** The state of the store after that sweep. *)
Fixpoint sweepStore (now : Z) (l : list Txn) (x : Ext) : Ext :=
  match l with
  | [] => x
  | t :: l' =>
      if decide (Stale now t)
      then match NewHashFromStr C (Txid t) with
           | inr _ => sweepStore now l' x
           | inl h => sweepStore now l' (snd (markAsDead C h x))
           end
      else sweepStore now l' x
  end.


End Observations.

(** * Properties of the handlers *)

Section EngineFacts.

Context {MsgTx Filter Ext : Type}.
Variable C : Collaborators MsgTx Filter Ext.

Abbreviation Wallet := (SPVWallet Ext).
Abbreviation Ev := (Event MsgTx Filter).
Abbreviation Run := (M (MsgTx := MsgTx) (Filter := Filter) (Ext := Ext)).
Abbreviation Result := (Res (MsgTx := MsgTx) (Filter := Filter) (Ext := Ext)).

(** A handler under which a closed block queue stays closed. *)
Abbreviation keepsClosed :=
  (respects (fun w : Wallet => closed (blockQueue w) = true) (fun _ : list Ev => True)).

(** A handler that never queues a message or calls a store with the mutex
    held, and that releases the mutex. *)
Abbreviation tidy :=
  (respects (fun _ : Wallet => True) (fun l : list Ev => lockScan false l = Some false)).

(** ** Running a sequence *)

(** Unfolds the sequencing and the primitive effects of a handler that has
    been unfolded, up to the first value that the collaborators decide. *)
Ltac run :=
  cbv beta iota zeta delta
    [bind ret emit log panic block get recover defer query call read
     ChainState_ SetChainState QueueMessage Disconnect set_toDownload
     set_fpAccumulator len_blockQueue syncingWith];
  cbn [out st evs fst snd app negb andb
       chainState blockQueue toDownload fpAccumulator ext
       with_ext with_chainState with_blockQueue with_toDownload with_fpAccumulator
       buf cap closed].

Lemma bind_run {A B} (c : Run A) (k : A -> Run B) (w : Wallet) (a : A) :
  out (c w) = Ok a ->
  bind c k w = mkRes (out (k a (st (c w)))) (st (k a (st (c w))))
                     (evs (c w) ++ evs (k a (st (c w)))).
Proof.
  intros H. unfold bind. destruct (c w) as [o w1 e1]. simpl in H. subst o. simpl.
  now destruct (k a w1).
Qed.

Lemma bind_eq {A B} (c : Run A) (k : A -> Run B) (w : Wallet) :
  bind c k w =
  match out (c w) with
  | Ok a => mkRes (out (k a (st (c w)))) (st (k a (st (c w))))
                  (evs (c w) ++ evs (k a (st (c w))))
  | Panic e => mkRes (Panic e) (st (c w)) (evs (c w))
  | Blocked => mkRes Blocked (st (c w)) (evs (c w))
  end.
Proof.
  unfold bind. destruct (c w) as [[a|r|] w1 e1]; simpl; try reflexivity.
  now destruct (k a w1).
Qed.

Lemma Res_eta {A} (r : Result A) : r = mkRes (out r) (st r) (evs r).
Proof. now destruct r. Qed.

Lemma for_each_app {A} (f : A -> Run unit) (l1 l2 : list A) (w : Wallet) :
  out (for_each f l1 w) = Ok tt ->
  for_each f (l1 ++ l2) w =
  mkRes (out (for_each f l2 (st (for_each f l1 w))))
        (st (for_each f l2 (st (for_each f l1 w))))
        (evs (for_each f l1 w) ++ evs (for_each f l2 (st (for_each f l1 w)))).
Proof.
  revert w. induction l1 as [|x l1 IH]; intros w H; simpl in *.
  - now rewrite <- Res_eta.
  - rewrite !bind_eq in *. destruct (out (f x w)) as [[]| |] eqn:E; simpl in *; try discriminate.
    rewrite IH by exact H. simpl. now rewrite app_assoc.
Qed.

(** The state after the order check of [onMerkleBlock] has taken the hash at
    the front of the queue. *)
Lemma recv_blockQueue_st (w : Wallet) :
  st (recv_blockQueue (MsgTx := MsgTx) (Filter := Filter) w) =
  with_blockQueue (mkChan (tail (buf (blockQueue w))) (cap (blockQueue w))
                          (closed (blockQueue w))) w.
Proof.
  unfold recv_blockQueue. destruct w as [s [b c cl] t f x]; simpl.
  destruct b; [destruct cl|]; reflexivity.
Qed.

Lemma recv_blockQueue_evs (w : Wallet) :
  evs (recv_blockQueue (MsgTx := MsgTx) (Filter := Filter) w) = [].
Proof.
  unfold recv_blockQueue.
  destruct (buf (blockQueue w)); [destruct (closed (blockQueue w))|]; reflexivity.
Qed.

Lemma syncingWith_run (p : Peer) (w : Wallet) :
  syncingWith C p w =
  mkRes (Ok (bool_decide (chainState w = SYNCING) &&
             match DownloadPeer C (ext w) with
             | Some d => ID d =? ID p
             | None => false
             end)) w [].
Proof. reflexivity. Qed.

(** C1: while the chain state is SYNCING and the sender is the download
    peer, a merkle block whose header hash differs from the hash received
    from the block queue gets the peer disconnected and nothing else: the
    handler returns before the proof is checked and before any header commit,
    and the only change of state is the entry taken from the queue. *)
Theorem onMerkleBlock_out_of_order (p d : Peer) (m : MsgMerkleBlock) (now : Z)
    (w : Wallet) (queueHash : Hash) :
  chainState w = SYNCING ->
  DownloadPeer C (ext w) = Some d ->
  ID d = ID p ->
  out (recv_blockQueue (MsgTx := MsgTx) (Filter := Filter) w) = Ok queueHash ->
  BlockHash C (Header m) <> queueHash ->
  let r := onMerkleBlock C p m now w in
  out r = Ok tt /\
  evs r = [EvLog "Peer is sending us blocks out of order"; EvDisconnect p] /\
  (forall h, EvCommitHeader h ∉ evs r) /\
  st r = with_blockQueue (mkChan (tail (buf (blockQueue w))) (cap (blockQueue w))
                                 (closed (blockQueue w))) w /\
  chainState (st r) = chainState w /\
  toDownload (st r) = toDownload w /\
  fpAccumulator (st r) = fpAccumulator w /\
  ext (st r) = ext w.
Proof.
  intros Hs Hd Hid Hq Hne r.
  assert (Hr : r = mkRes (Ok tt) (st (recv_blockQueue (MsgTx := MsgTx) (Filter := Filter) w))
                 [EvLog "Peer is sending us blocks out of order"; EvDisconnect p]).
  { subst r. unfold onMerkleBlock.
    rewrite (bind_run _ _ _ true).
    2:{ rewrite syncingWith_run. simpl. rewrite Hs, Hd, Hid, Z.eqb_refl. reflexivity. }
    rewrite syncingWith_run. simpl.
    rewrite (bind_run _ _ _ queueHash) by exact Hq.
    apply Z.eqb_neq in Hne. rewrite Hne. simpl.
    now rewrite recv_blockQueue_evs. }
  rewrite Hr. simpl. rewrite recv_blockQueue_st.
  repeat split; try reflexivity.
  intros h Hin. repeat (apply elem_of_cons in Hin as [Hin|Hin]; [discriminate|]).
  now apply elem_of_nil in Hin.
Qed.

Lemma onMerkleBlock_accepted (p : Peer) (m : MsgMerkleBlock) (now : Z) (w w1 : Wallet) :
  orderCheck C p m w = Some w1 ->
  onMerkleBlock C p m now w = onMerkleBlock_ordered C p m now w1.
Proof.
  intros Ho. unfold onMerkleBlock. rewrite bind_eq, syncingWith_run. cbn [out st evs].
  unfold orderCheck in Ho. rewrite syncingWith_run in Ho. cbn [out] in Ho.
  destruct (bool_decide (chainState w = SYNCING) && _).
  - rewrite bind_eq.
    destruct (out (recv_blockQueue w)) as [q| |]; try discriminate.
    destruct (BlockHash C (Header m) =? q); try discriminate.
    injection Ho as <-. cbn [negb]. rewrite recv_blockQueue_evs. simpl.
    apply eq_sym, Res_eta.
  - injection Ho as <-. simpl. apply eq_sym, Res_eta.
Qed.


(** C10: while the chain state is SYNCING and the sender is the download
    peer, a block that arrives in order takes its entry off the block queue
    before its proof is checked and before its header is submitted: when the
    proof is invalid, the commit fails or the header is not new, exactly that
    entry is gone from the queue although no header was committed, and
    neither the chain state nor the two maps have changed. *)
Theorem onMerkleBlock_pops_first (p d : Peer) (m : MsgMerkleBlock) (now : Z) (w : Wallet)
    (queueHash : Hash) (rest : list Hash) :
  chainState w = SYNCING ->
  DownloadPeer C (ext w) = Some d ->
  ID d = ID p ->
  buf (blockQueue w) = queueHash :: rest ->
  BlockHash C (Header m) = queueHash ->
  notCommitted C m (ext w) = true ->
  let res := onMerkleBlock C p m now w in
  out res = Ok tt /\
  blockQueue (st res) = mkChan rest (cap (blockQueue w)) (closed (blockQueue w)) /\
  evs res = match checkMBlock C m with
            | inr _ => [EvLog "Peer sent an invalid MerkleBlock"; EvDisconnect p]
            | inl _ => EvCommitHeader (Header m) ::
                       match snd (fst (CommitHeader C (Header m) (ext w))) with
                       | Some e => [EvLog e]
                       | None => []
                       end
            end /\
  ext (st res) = match checkMBlock C m with
                 | inr _ => ext w
                 | inl _ => snd (CommitHeader C (Header m) (ext w))
                 end /\
  chainState (st res) = SYNCING /\
  toDownload (st res) = toDownload w /\
  fpAccumulator (st res) = fpAccumulator w.
Proof.
  intros Hs Hd Hid Hb Hh Hn res. subst res.
  rewrite (onMerkleBlock_accepted _ _ _ _
             (with_blockQueue (mkChan rest (cap (blockQueue w)) (closed (blockQueue w))) w)).
  2:{ unfold orderCheck. rewrite syncingWith_run. simpl.
      rewrite Hs, Hd, Hid, Z.eqb_refl. simpl.
      unfold recv_blockQueue. rewrite Hb. simpl. now rewrite Hh, Z.eqb_refl. }
  unfold notCommitted in Hn. unfold onMerkleBlock_ordered.
  destruct (checkMBlock C m) as [txids|e].
  - run.
    destruct (CommitHeader C (Header m) (ext w)) as [[[[newBlock ro] hh] err] x1]. simpl in *.
    destruct err as [e|]; simpl.
    + now repeat split.
    + destruct newBlock; simpl in *; [discriminate|]. now repeat split.
  - simpl. now repeat split.
Qed.

(** ** The false positive counter *)

Lemma updateFilterAndSend_run (p : Peer) (w : Wallet) :
  updateFilterAndSend C p w = mkRes (Ok tt) w (refresh C p (ext w)).
Proof.
  unfold updateFilterAndSend, refresh. run. now destruct (GimmeFilter C (ext w)).
Qed.

Lemma fPositive_run (peer : Peer) (w : Wallet) :
  let n := to_int32 (default 0 (fpAccumulator w !! ID peer) + 1) in
  fPositive C peer w =
  if 7 <? n
  then mkRes (Ok tt) (with_fpAccumulator (<[ID peer := 0]> (fpAccumulator w)) w)
             ([EvRLock; EvRUnlock] ++ refresh C peer (ext w) ++
              [EvLog "Reset false positives for Peer"; EvLock; EvUnlock])
  else mkRes (Ok tt) (with_fpAccumulator (<[ID peer := n]> (fpAccumulator w)) w)
             [EvRLock; EvRUnlock; EvLock; EvUnlock].
Proof.
  intros n. subst n. unfold fPositive. run.
  destruct (7 <? _).
  - rewrite updateFilterAndSend_run. run. now rewrite <- app_assoc.
  - reflexivity.
Qed.

Lemma to_int32_small (z : Z) : - 2 ^ 31 <= z < 2 ^ 31 -> to_int32 z = z.
Proof. intros H. unfold to_int32. rewrite Z.mod_small; lia. Qed.

Lemma fPositiveHandler_below (peer : Peer) (rest : list Select) (n : nat) :
  forall (w : Wallet) (c : Z),
    default 0 (fpAccumulator w !! ID peer) = c ->
    0 <= c ->
    c + Z.of_nat (S n) <= 7 ->
    let w' := with_fpAccumulator (<[ID peer := c + Z.of_nat (S n)]> (fpAccumulator w)) w in
    fPositiveHandler C (replicate (S n) (FromFPositives peer) ++ rest) w =
    mkRes (out (fPositiveHandler C rest w')) (st (fPositiveHandler C rest w'))
          (concat (replicate (S n) quiet) ++ evs (fPositiveHandler C rest w')).
Proof.
  induction n as [|n IH]; intros w c Hc H0 H7 w'.
  - simpl replicate. simpl app. cbn [fPositiveHandler].
    rewrite bind_eq, fPositive_run, Hc.
    rewrite to_int32_small by lia.
    destruct (7 <? c + 1) eqn:E; [apply Z.ltb_lt in E; lia|].
    cbn [out st evs]. subst w'. replace (c + Z.of_nat 1) with (c + 1) by lia.
    simpl. reflexivity.
  - change (replicate (S (S n)) (FromFPositives peer) ++ rest)
      with (FromFPositives peer :: (replicate (S n) (FromFPositives peer) ++ rest)).
    cbn [fPositiveHandler].
    rewrite bind_eq, fPositive_run, Hc.
    rewrite to_int32_small by lia.
    destruct (7 <? c + 1) eqn:E; [apply Z.ltb_lt in E; lia|].
    cbn [out st evs].
    rewrite (IH _ (c + 1)); [| simpl; now rewrite lookup_insert_eq | lia | lia].
    cbn [with_fpAccumulator fpAccumulator chainState blockQueue toDownload ext].
    rewrite insert_insert_eq.
    subst w'. replace (c + 1 + Z.of_nat (S n)) with (c + Z.of_nat (S (S n))) by lia.
    cbn [with_fpAccumulator]. reflexivity.
Qed.


(** C5, amended: for a peer whose counter is 0, seven misses in a row leave
    the counter at 7 without a call to the transaction store and without a
    message to the peer; the eighth miss calls [updateFilterAndSend] once and
    leaves the counter at 0, and the filter is queued to the peer when the
    transaction store could build it. *)
Theorem fPositiveHandler_threshold (peer : Peer) (w : Wallet) :
  default 0 (fpAccumulator w !! ID peer) = 0 ->
  let r7 := fPositiveHandler C (replicate 7 (FromFPositives peer) ++ [FromQuit]) w in
  let r8 := fPositiveHandler C (replicate 8 (FromFPositives peer) ++ [FromQuit]) w in
  (out r7 = Ok tt /\
   evs r7 = concat (replicate 7 quiet) /\
   fpAccumulator (st r7) !! ID peer = Some 7) /\
  (out r8 = Ok tt /\
   evs r8 = concat (replicate 7 quiet) ++ [EvRLock; EvRUnlock] ++ refresh C peer (ext w) ++
            [EvLog "Reset false positives for Peer"; EvLock; EvUnlock] /\
   fpAccumulator (st r8) !! ID peer = Some 0 /\
   (forall filt, GimmeFilter C (ext w) = inl filt ->
      EvQueueMessage peer (MsgFilterLoad filt) ∈ evs r8)).
Proof.
  intros H0 r7 r8. split.
  - subst r7 r8. rewrite (fPositiveHandler_below peer [FromQuit] 6 w 0 H0) by lia.
    cbn [fPositiveHandler ret out st evs]. rewrite app_nil_r.
    repeat split. simpl. apply lookup_insert_eq.
  - subst r7 r8.
    change (replicate 8 (FromFPositives peer) ++ [FromQuit])
      with (replicate 7 (FromFPositives peer) ++ [FromFPositives peer; FromQuit]).
    rewrite (fPositiveHandler_below peer _ 6 w 0 H0) by lia.
    cbn [fPositiveHandler]. rewrite bind_eq, fPositive_run.
    cbn [with_fpAccumulator fpAccumulator ext]. rewrite lookup_insert_eq.
    change (7 <? to_int32 (default 0 (Some (0 + Z.of_nat 7)) + 1)) with true.
    cbn [out st evs ret with_fpAccumulator fpAccumulator ext]. rewrite app_nil_r.
    split; [reflexivity|]. split; [reflexivity|]. split; [apply lookup_insert_eq|].
    intros filt Hf. unfold refresh. rewrite Hf.
    rewrite !elem_of_app. right. right. left. rewrite !elem_of_cons. right. now left.
Qed.

(** ** Incoming transactions *)

Lemma onTx_run (p : Peer) (m : MsgTx) (w : Wallet) :
  let height := default 0 (toDownload w !! TxHash C m) in
  let ing := Ingest C m height (ext w) in
  onTx C p m w =
  mkRes (Ok tt) (with_ext (fun _ => snd ing) w)
        ([EvRLock; EvRUnlock; EvIngest m height] ++
         match fst ing with
         | (_, Some e) => [EvLog "Error ingesting tx"]
         | (hits, None) =>
             if hits =? 0
             then [EvLog "Tx had no hits, filter false positive."; EvFPositive p]
             else refresh C p (snd ing) ++ [EvLog "Tx ingested and matches utxo/adrs."]
         end).
Proof.
  intros height ing. unfold onTx. run. fold height. fold ing.
  destruct (fst ing) as [hits [e|]]; [reflexivity|].
  destruct (hits =? 0); [reflexivity|].
  rewrite updateFilterAndSend_run. run. reflexivity.
Qed.

(** C7, amended: [onTx] reads the height of the transaction in
    [toDownload], 0 when there is none, and hands both to [Ingest].  When
    [Ingest] fails it only logs.  When it reports no hit, exactly one miss
    goes to [fPositives] for the peer and the store is not asked for a filter.
    When it reports hits, no miss is sent and [updateFilterAndSend] runs for
    the peer: the filter is queued to the peer when the store could build it,
    and nothing is queued when it could not. *)
Theorem onTx_outcomes (p : Peer) (m : MsgTx) (w : Wallet) :
  let height := default 0 (toDownload w !! TxHash C m) in
  let ing := Ingest C m height (ext w) in
  let r := onTx C p m w in
  out r = Ok tt /\
  st r = with_ext (fun _ => snd ing) w /\
  evs r = [EvRLock; EvRUnlock; EvIngest m height] ++
          match fst ing with
          | (_, Some e) => [EvLog "Error ingesting tx"]
          | (hits, None) =>
              if hits =? 0
              then [EvLog "Tx had no hits, filter false positive."; EvFPositive p]
              else refresh C p (snd ing) ++ [EvLog "Tx ingested and matches utxo/adrs."]
          end.
Proof.
  intros height ing r. subst r height ing. rewrite onTx_run. now repeat split.
Qed.

(** ** Invariants along a run *)

Section Respects.

Variable I : Wallet -> Prop.
Variable Q : list Ev -> Prop.
Hypothesis Q_nil : Q [].
Hypothesis Q_app : forall l1 l2, Q l1 -> Q l2 -> Q (l1 ++ l2).

Lemma respects_ret {A} (a : A) : respects I Q (ret a : Run A).
Proof. intros w Hw. now split. Qed.

Lemma respects_bind {A B} (c : Run A) (k : A -> Run B) :
  respects I Q c -> (forall a, respects I Q (k a)) -> respects I Q (bind c k).
Proof.
  intros Hc Hk w Hw. destruct (Hc w Hw) as [Hq Hi]. rewrite bind_eq.
  destruct (out (c w)) as [a| |]; cbn [evs st]; try now split.
  destruct (Hk a _ Hi). split; auto.
Qed.

Lemma respects_for_each {A} (f : A -> Run unit) (l : list A) :
  (forall x, respects I Q (f x)) -> respects I Q (for_each f l).
Proof.
  intros Hf. induction l as [|x l IH]; cbn [for_each].
  - apply respects_ret.
  - apply respects_bind; auto.
Qed.

Lemma respects_recover (body : Run unit) (handler : string -> Run unit) :
  respects I Q body -> (forall r, respects I Q (handler r)) ->
  respects I Q (recover body handler).
Proof.
  intros Hb Hh w Hw. destruct (Hb w Hw) as [Hq Hi]. unfold recover.
  destruct (body w) as [[a|r|] w1 e1]; cbn [evs st] in *; try now split.
  destruct (Hh r w1 Hi) as [Hq' Hi']. destruct (handler r w1) as [o w2 e2].
  cbn [evs st] in *. split; auto.
Qed.

Lemma respects_defer (d body : Run unit) :
  respects I Q d -> respects I Q body -> respects I Q (defer d body).
Proof.
  intros Hd Hb w Hw. destruct (Hb w Hw) as [Hq Hi]. unfold defer.
  destruct (body w) as [[a|r|] w1 e1]; cbn [evs st] in *; try now split.
  - destruct (Hd w1 Hi) as [Hq' Hi']. destruct (d w1) as [[[]|r'|] w2 e2];
      cbn [evs st] in *; split; auto.
  - destruct (Hd w1 Hi) as [Hq' Hi']. destruct (d w1) as [[[]|r'|] w2 e2];
      cbn [evs st] in *; split; auto.
Qed.

End Respects.

(** Splits a handler along its sequencing, its loops and the values it
    branches on; [prim] closes what is left. *)
Ltac split_run Hnil Happ prim :=
  repeat first
    [ solve [prim]
    | apply (respects_ret _ _ Hnil)
    | apply (respects_bind _ _ Happ); [|intros ?]
    | apply (respects_for_each _ _ Hnil Happ); intros ?
    | apply (respects_recover _ _ Happ); [|intros ?]
    | apply (respects_defer _ _ Happ)
    | match goal with
      | |- respects _ _ (match ?x with _ => _ end) => destruct x
      end ].

(** ** The staleness sweep *)

Lemma MAX_UNCONFIRMED_TIME_week : MAX_UNCONFIRMED_TIME = 604800000000000.
Proof. reflexivity. Qed.

Lemma sweepTxn_cond (now : Z) (t : Txn) :
  (Timestamp t + MAX_UNCONFIRMED_TIME <? now) && (Height t =? 0) = bool_decide (Stale now t).
Proof.
  rewrite MAX_UNCONFIRMED_TIME_week. unfold Stale.
  destruct (Timestamp t + 604800000000000 <? now) eqn:E1;
    destruct (Height t =? 0) eqn:E2; simpl; symmetry;
    [apply bool_decide_eq_true | apply bool_decide_eq_false ..];
    rewrite ?Z.ltb_lt, ?Z.ltb_ge, ?Z.eqb_eq, ?Z.eqb_neq in *; lia.
Qed.

Lemma markedDead_app (l1 l2 : list Ev) :
  markedDead (l1 ++ l2) = markedDead l1 ++ markedDead l2.
Proof. apply omap_app. Qed.

Lemma with_ext_same (w : Wallet) : with_ext (fun _ => ext w) w = w.
Proof. now destruct w. Qed.

Lemma sweepTxn_run (now : Z) (t : Txn) (w : Wallet) :
  sweepTxn C now t w =
  mkRes (Ok tt) (with_ext (fun _ => sweepStore C now [t] (ext w)) w)
        (sweepEffects C now [t] (ext w)).
Proof.
  unfold sweepTxn. rewrite sweepTxn_cond. cbn [sweepStore sweepEffects].
  destruct (decide (Stale now t)) as [Hs|Hs].
  - rewrite bool_decide_eq_true_2 by exact Hs. run.
    destruct (NewHashFromStr C (Txid t)) as [h|e].
    + run. destruct (fst (markAsDead C h (ext w))); run; reflexivity.
    + run. now rewrite with_ext_same.
  - rewrite bool_decide_eq_false_2 by exact Hs. run. now rewrite with_ext_same.
Qed.

Lemma sweep_loop (now : Z) (l : list Txn) :
  forall w : Wallet,
    for_each (sweepTxn C now) l w =
    mkRes (Ok tt) (with_ext (fun _ => sweepStore C now l (ext w)) w)
          (sweepEffects C now l (ext w)).
Proof.
  induction l as [|t l IH]; intros w; cbn [for_each].
  - cbn [sweepStore sweepEffects]. now rewrite with_ext_same.
  - rewrite bind_eq, sweepTxn_run. cbn [out st evs]. rewrite IH.
    cbn [out st evs sweepStore sweepEffects].
    destruct (decide (Stale now t)); [|reflexivity].
    destruct (NewHashFromStr C (Txid t)); [|reflexivity].
    cbn [app ext with_ext]. now rewrite <- app_assoc.
Qed.

Lemma sweepEffects_app (now : Z) (l1 l2 : list Txn) :
  forall x : Ext,
    sweepEffects C now (l1 ++ l2) x =
    sweepEffects C now l1 x ++ sweepEffects C now l2 (sweepStore C now l1 x).
Proof.
  induction l1 as [|t l1 IH]; intros x; cbn [app sweepEffects sweepStore]; [reflexivity|].
  destruct (decide (Stale now t)); [|apply IH].
  destruct (NewHashFromStr C (Txid t)); cbn [app]; rewrite IH; [|reflexivity].
  now rewrite <- app_assoc.
Qed.

Lemma sweepEffects_marked (now : Z) (l : list Txn) :
  forall x : Ext, markedDead (sweepEffects C now l x) = omap (deadHash C now) l.
Proof.
  induction l as [|t l IH]; intros x; cbn [sweepEffects omap list_omap]; [reflexivity|].
  unfold deadHash at 1.
  destruct (decide (Stale now t)); [|apply IH].
  destruct (NewHashFromStr C (Txid t)) as [h|e].
  - rewrite <- (IH (snd (markAsDead C h x))).
    now destruct (fst (markAsDead C h x)).
  - apply IH.
Qed.

Lemma sweep_waiting (now : Z) (w : Wallet) (txns : list Txn) :
  chainState w = WAITING ->
  Txns_GetAll C false (ext w) = inl txns ->
  sweep C now w =
  mkRes (Ok tt) (with_ext (fun _ => sweepStore C now (rev txns) (ext w)) w)
        (EvGetAll :: sweepEffects C now (rev txns) (ext w)).
Proof.
  intros Hs Hall. unfold sweep. run. rewrite Hs.
  rewrite bool_decide_eq_true_2 by reflexivity. run. rewrite Hall. run.
  now rewrite sweep_loop.
Qed.

Lemma not_sweep_nil : Forall (fun e : Ev => isSweep e = false) [].
Proof. constructor. Qed.

Lemma not_sweep_app (l1 l2 : list Ev) :
  Forall (fun e : Ev => isSweep e = false) l1 ->
  Forall (fun e : Ev => isSweep e = false) l2 ->
  Forall (fun e : Ev => isSweep e = false) (l1 ++ l2).
Proof. intros H1 H2. now apply Forall_app. Qed.

(** Closes a goal on a primitive effect that leaves the invariant alone. *)
Ltac prim_run :=
  let w := fresh "w" in
  let Hw := fresh "Hw" in
  intros w Hw; run; split; [repeat constructor | first [exact Hw | reflexivity]].

Lemma recv_blockQueue_respects (I : Wallet -> Prop) (Q : list Ev -> Prop) :
  Q [] ->
  (forall w q, I w -> I (with_blockQueue (mkChan q (cap (blockQueue w)) (closed (blockQueue w))) w)) ->
  respects I Q (recv_blockQueue (MsgTx := MsgTx) (Filter := Filter)).
Proof.
  intros Hnil Hi w Hw. rewrite recv_blockQueue_evs, recv_blockQueue_st. split; auto.
Qed.

(** While the chain state is SYNCING, [onMerkleBlock] neither reads the
    transactions nor marks one dead, and the chain state stays SYNCING. *)
Lemma onMerkleBlock_no_sweep (p : Peer) (m : MsgMerkleBlock) (now : Z) :
  respects (fun w : Wallet => chainState w = SYNCING)
           (Forall (fun e : Ev => isSweep e = false))
           (onMerkleBlock C p m now).
Proof.
  assert (Hsweep : respects (fun w : Wallet => chainState w = SYNCING)
                     (Forall (fun e : Ev => isSweep e = false)) (sweep C now)).
  { intros w Hw. unfold sweep. run. rewrite Hw. run. split; [constructor | exact Hw]. }
  unfold onMerkleBlock, onMerkleBlock_ordered.
  split_run not_sweep_nil not_sweep_app
    ltac:(first [ exact Hsweep
                | apply recv_blockQueue_respects; [constructor | intros ? ? H; exact H]
                | prim_run ]).
Qed.

(** ** The block queue stays closed *)

(** Closes a goal on a primitive effect that leaves the block queue alone. *)
Ltac closed_run :=
  let w := fresh "w" in
  let Hw := fresh "Hw" in
  intros w Hw; first
    [ unfold send_blockQueue; cbv zeta; rewrite Hw; split; [exact Logic.I | exact Hw]
    | unfold close_blockQueue; cbv zeta; rewrite Hw; split; [exact Logic.I | exact Hw]
    | rewrite recv_blockQueue_st; split; [exact Logic.I | exact Hw]
    | run; split; [exact Logic.I | exact Hw] ].

Lemma handle_keepsClosed (h : Handler MsgTx) : keepsClosed (handle C h).
Proof.
  destruct h as [p|p m now|p m|p m|p m|sel]; cbn [handle].
  - unfold startChainDownload, startChainDownload_locked, Rebroadcast.
    split_run Logic.I (fun (_ _ : list Ev) (_ _ : True) => Logic.I) ltac:(closed_run).
  - unfold onMerkleBlock, onMerkleBlock_ordered, sweep, sweepTxn.
    split_run Logic.I (fun (_ _ : list Ev) (_ _ : True) => Logic.I) ltac:(closed_run).
  - unfold onTx, updateFilterAndSend.
    split_run Logic.I (fun (_ _ : list Ev) (_ _ : True) => Logic.I) ltac:(closed_run).
  - unfold onInv, onInv_item.
    split_run Logic.I (fun (_ _ : list Ev) (_ _ : True) => Logic.I) ltac:(closed_run).
  - unfold onGetData.
    split_run Logic.I (fun (_ _ : list Ev) (_ _ : True) => Logic.I) ltac:(closed_run).
  - induction sel as [|[peer|] sel IH]; cbn [fPositiveHandler].
    + closed_run.
    + apply (respects_bind _ _ (fun (_ _ : list Ev) (_ _ : True) => Logic.I)); [|intros _; exact IH].
      unfold fPositive, updateFilterAndSend.
      split_run Logic.I (fun (_ _ : list Ev) (_ _ : True) => Logic.I) ltac:(closed_run).
    + closed_run.
Qed.

(** Once the block queue is closed, no sequence of calls opens it again. *)
Lemma closed_for_good (hs : list (Handler MsgTx)) :
  forall w : Wallet,
    closed (blockQueue w) = true -> closed (blockQueue (handleAll C hs w)) = true.
Proof.
  induction hs as [|h hs IH]; intros w Hw; [exact Hw|].
  cbn [handleAll fold_left]. apply IH. now apply handle_keepsClosed.
Qed.

(** ** The end of the download *)

Lemma for_each_emit {A} (f : A -> Ev) (l : list A) (w : Wallet) :
  for_each (fun x w' => mkRes (Ok tt) w' [f x]) l w = mkRes (Ok tt) w (map f l).
Proof.
  induction l as [|x l IH]; cbn [for_each map]; [reflexivity|].
  rewrite bind_eq. cbn [out st evs]. now rewrite IH.
Qed.

Lemma Rebroadcast_run (w : Wallet) :
  Rebroadcast C w =
  mkRes (match fst (GetPendingInv C (ext w)) with
         | Some _ => Ok tt
         | None => Panic "invalid memory address or nil pointer dereference"
         end) w (announce C (ext w)).
Proof.
  unfold Rebroadcast, announce. run.
  destruct (GetPendingInv C (ext w)) as [[invMsg|] [e|]]; run; try reflexivity.
  - destruct (length invMsg =? 0)%nat; run; [reflexivity|].
    now rewrite (for_each_emit (fun peer => EvQueueMessage peer (MsgInv invMsg))).
  - destruct (length invMsg =? 0)%nat; run; [reflexivity|].
    now rewrite (for_each_emit (fun peer => EvQueueMessage peer (MsgInv invMsg))).
Qed.

(** C3, amended: when [startChainDownload] runs while the chain state is
    SYNCING and the height of the header database is at least the last block
    of the peer taken as a [uint32], it asks the peer manager.  When a peer
    with more blocks remains, nothing changes and nothing is sent.  When none
    remains, the chain state becomes WAITING and [Rebroadcast] runs; when
    [Rebroadcast] got a pending inventory, the block queue is closed after
    it: closing an open queue closes it, and closing a closed queue is a
    run-time error that the handler recovers from and logs, leaving it
    closed.  No later call of a handler opens the queue again. *)
Theorem startChainDownload_complete (p : Peer) (w : Wallet) :
  chainState w = SYNCING ->
  to_uint32 (LastBlock p) <= db_Height C (ext w) ->
  let h := db_Height C (ext w) in
  let more := CheckForMoreBlocks C h (ext w) in
  let w1 := with_ext (fun _ => snd more) w in
  let r := startChainDownload C p w in
  out r = Ok tt /\
  (fst more = true ->
     st r = w1 /\ evs r = [EvLock; EvHeight; EvCheckForMoreBlocks h; EvUnlock]) /\
  (fst more = false ->
     chainState (st r) = WAITING /\
     (forall invMsg, fst (GetPendingInv C (snd more)) = Some invMsg ->
        st r = with_blockQueue
                 (mkChan (buf (blockQueue w)) (cap (blockQueue w)) true)
                 (with_chainState WAITING w1) /\
        evs r = [EvLock; EvHeight; EvCheckForMoreBlocks h;
                 EvLog "Chain download complete"; EvSetChainState WAITING] ++
                announce C (snd more) ++
                (if closed (blockQueue w)
                 then [EvUnlock; EvLog "Unhandled error in startChainDownload"]
                 else [EvCloseBlockQueue; EvUnlock]) /\
        forall hs, closed (blockQueue (handleAll C hs (st r))) = true)).
Proof.
  intros Hs Hh h more w1 r. subst r.
  unfold startChainDownload, startChainDownload_locked. run.
  rewrite Hs. rewrite bool_decide_eq_true_2 by reflexivity.
  apply Z.leb_le in Hh. rewrite Hh. run. fold h. fold more.
  destruct (fst more) eqn:Hm; run.
  - split; [reflexivity|]. split; [now split|discriminate].
  - rewrite Rebroadcast_run. run.
    destruct (fst (GetPendingInv C (snd more))) as [invMsg|] eqn:Hp.
    + unfold close_blockQueue. run.
      destruct w as [cs [b c cl] td fp x]. cbn in *.
      destruct cl; run.
      * split; [reflexivity|]. split; [discriminate|]. intros _. split; [reflexivity|].
        intros ? _. split; [reflexivity|]. split.
        -- f_equal. f_equal. f_equal. f_equal. f_equal. now rewrite <- !app_assoc.
        -- intros hs. now apply closed_for_good.
      * split; [reflexivity|]. split; [discriminate|]. intros _. split; [reflexivity|].
        intros ? _. split; [reflexivity|]. split.
        -- f_equal. f_equal. f_equal. f_equal. f_equal. now rewrite <- !app_assoc.
        -- intros hs. now apply closed_for_good.
    + run. split; [reflexivity|]. split; [discriminate|]. intros _. split; [reflexivity|].
      intros ? [=].
Qed.

(** ** Inventories after the queue has been closed *)

Lemma onInv_item_other (p : Peer) (inv : InvVect) (w : Wallet) :
  inv_Type inv <> InvTypeBlock ->
  onInv_item C p inv w =
  mkRes (Ok tt) w (if inv_Type inv =? InvTypeTx then [EvQueueMessage p (MsgGetData [inv])] else []).
Proof.
  intros H. unfold onInv_item. apply Z.eqb_neq in H. rewrite H.
  destruct (inv_Type inv =? InvTypeTx); reflexivity.
Qed.

Lemma onInv_others (p : Peer) (l : list InvVect) (w : Wallet) :
  Forall (fun i => inv_Type i <> InvTypeBlock) l ->
  out (for_each (onInv_item C p) l w) = Ok tt /\ st (for_each (onInv_item C p) l w) = w.
Proof.
  induction 1 as [|i l Hi Hl IH]; cbn [for_each]; [now split|].
  rewrite bind_eq, onInv_item_other by exact Hi. cbn [out st evs]. exact IH.
Qed.

Lemma onInv_item_closed (p d : Peer) (inv : InvVect) (w : Wallet) :
  chainState w = SYNCING ->
  DownloadPeer C (ext w) = Some d ->
  ID d = ID p ->
  closed (blockQueue w) = true ->
  inv_Type inv = InvTypeBlock ->
  onInv_item C p inv w =
  mkRes (Panic "send on closed channel") w
        [EvQueueMessage p (MsgGetData [mkInvVect InvTypeFilteredBlock (inv_Hash inv)])].
Proof.
  intros Hs Hd Hid Hc Ht. unfold onInv_item, send_blockQueue. rewrite Ht, Z.eqb_refl. run.
  rewrite Hs, Hd, Hid, Z.eqb_refl. rewrite bool_decide_eq_true_2 by reflexivity.
  run. now rewrite Hc.
Qed.

(** C4, amended: when the block queue is closed while the chain state is
    SYNCING, pushing the hash of an announced block is a run-time error.  The
    goroutine of [onInv] recovers from it and logs it: the handler returns,
    the state is what it was and the queue is still closed.  The request for
    the block has been queued to the peer before the push, and the items that
    follow the block in the inventory are not handled. *)
Theorem onInv_push_after_close (p d : Peer) (w : Wallet) (inv : InvVect)
    (l1 l2 : list InvVect) :
  chainState w = SYNCING ->
  DownloadPeer C (ext w) = Some d ->
  ID d = ID p ->
  closed (blockQueue w) = true ->
  inv_Type inv = InvTypeBlock ->
  Forall (fun i => inv_Type i <> InvTypeBlock) l1 ->
  let r := onInv C p (l1 ++ inv :: l2) w in
  out (send_blockQueue (MsgTx := MsgTx) (Filter := Filter) (inv_Hash inv) w)
    = Panic "send on closed channel" /\
  out r = Ok tt /\
  st r = w /\
  evs r = evs (onInv C p l1 w) ++
          [EvQueueMessage p (MsgGetData [mkInvVect InvTypeFilteredBlock (inv_Hash inv)]);
           EvLog "send on closed channel"] /\
  r = onInv C p (l1 ++ [inv]) w.
Proof.
  intros Hs Hd Hid Hc Ht Hl r.
  destruct (onInv_others p l1 w Hl) as [Ho Hst].
  assert (Hrun : forall l, onInv C p (l1 ++ inv :: l) w =
            mkRes (Ok tt) w
              (evs (onInv C p l1 w) ++
               [EvQueueMessage p (MsgGetData [mkInvVect InvTypeFilteredBlock (inv_Hash inv)]);
                EvLog "send on closed channel"])).
  { intros l. unfold onInv, recover. rewrite for_each_app by exact Ho.
    rewrite Hst. cbn [for_each]. rewrite bind_eq.
    rewrite (onInv_item_closed p d inv w Hs Hd Hid Hc Ht). cbn [out st evs].
    destruct (for_each (onInv_item C p) l1 w) as [o w1 e1]. cbn [out st evs] in *. subst o.
    run. now rewrite <- app_assoc. }
  split.
  { unfold send_blockQueue. now rewrite Hc. }
  subst r. rewrite (Hrun l2), (Hrun []). now repeat split.
Qed.

(** ** The scope of the mutex *)

Lemma lockScan_app (l1 l2 : list Ev) :
  forall held,
    lockScan held (l1 ++ l2) =
    match lockScan held l1 with
    | Some held' => lockScan held' l2
    | None => None
    end.
Proof.
  induction l1 as [|e l1 IH]; intros held; [reflexivity|].
  destruct e; cbn [app lockScan]; try apply IH;
    destruct (held && _); try reflexivity; apply IH.
Qed.

Lemma tidy_nil : lockScan false ([] : list Ev) = Some false.
Proof. reflexivity. Qed.

Lemma tidy_app (l1 l2 : list Ev) :
  lockScan false l1 = Some false -> lockScan false l2 = Some false ->
  lockScan false (l1 ++ l2) = Some false.
Proof. intros H1 H2. now rewrite lockScan_app, H1. Qed.

(** Closes a goal on effects that take and release the mutex around
    nothing but a field of the wallet. *)
Ltac tidy_run :=
  let w := fresh "w" in
  intros w _; run; split; [reflexivity | exact Logic.I].

Lemma onMerkleBlock_tidy (p : Peer) (m : MsgMerkleBlock) (now : Z) :
  tidy (onMerkleBlock C p m now).
Proof.
  unfold onMerkleBlock, onMerkleBlock_ordered, sweep, sweepTxn.
  split_run tidy_nil tidy_app
    ltac:(first [ apply recv_blockQueue_respects; [reflexivity | intros; exact Logic.I]
                | tidy_run ]).
Qed.

Lemma send_blockQueue_evs (h : Hash) (w : Wallet) :
  evs (send_blockQueue (MsgTx := MsgTx) (Filter := Filter) h w) = [].
Proof.
  unfold send_blockQueue. cbv zeta.
  destruct (closed (blockQueue w)); [|destruct (_ <? _)%nat]; reflexivity.
Qed.

Lemma onInv_tidy (p : Peer) (m : InvList) : tidy (onInv C p m).
Proof.
  unfold onInv, onInv_item.
  split_run tidy_nil tidy_app
    ltac:(first [ intros w _; rewrite send_blockQueue_evs; split; [reflexivity | exact Logic.I]
                | tidy_run ]).
Qed.

Lemma onGetData_tidy (p : Peer) (m : InvList) : tidy (onGetData C p m).
Proof.
  unfold onGetData. split_run tidy_nil tidy_app ltac:(tidy_run).
Qed.

Lemma refresh_tidy (p : Peer) (x : Ext) : lockScan false (refresh C p x) = Some false.
Proof. unfold refresh. now destruct (GimmeFilter C x). Qed.

Lemma onTx_tidy (p : Peer) (m : MsgTx) (w : Wallet) :
  lockScan false (evs (onTx C p m w)) = Some false.
Proof.
  rewrite onTx_run. cbn [evs].
  destruct (fst _) as [hits [e|]]; [reflexivity|].
  destruct (hits =? 0); [reflexivity|].
  cbn [app lockScan]. apply tidy_app; [apply refresh_tidy | reflexivity].
Qed.

Lemma fPositive_tidy (peer : Peer) (w : Wallet) :
  lockScan false (evs (fPositive C peer w)) = Some false.
Proof.
  rewrite fPositive_run. destruct (7 <? _); [|reflexivity].
  cbn [evs app lockScan]. apply tidy_app; [apply refresh_tidy | reflexivity].
Qed.

Lemma fPositiveHandler_tidy (sel : list Select) :
  forall w : Wallet, lockScan false (evs (fPositiveHandler C sel w)) = Some false.
Proof.
  induction sel as [|[peer|] sel IH]; intros w; cbn [fPositiveHandler]; try reflexivity.
  rewrite bind_eq.
  assert (Ho : out (fPositive C peer w) = Ok tt).
  { rewrite fPositive_run. now destruct (7 <? _). }
  rewrite Ho. cbn [evs]. apply tidy_app; [apply fPositive_tidy | apply IH].
Qed.

(** All the effects of the body of [startChainDownload] lie between the
    lock and the unlock of the mutex. *)
Lemma startChainDownload_evs (p : Peer) (w : Wallet) :
  evs (startChainDownload C p w) =
  EvLock :: evs (startChainDownload_locked C p w) ++
  match out (startChainDownload_locked C p w) with
  | Ok _ => [EvUnlock]
  | Panic _ => [EvUnlock; EvLog "Unhandled error in startChainDownload"]
  | Blocked => []
  end.
Proof.
  unfold startChainDownload. run.
  destruct (startChainDownload_locked C p w) as [[[]|r|] w1 e1]; cbn [out st evs app].
  - reflexivity.
  - now rewrite <- app_assoc.
  - now rewrite app_nil_r.
Qed.

Lemma startChainDownload_locked_Height (p : Peer) (w : Wallet) :
  chainState w = SYNCING ->
  exists rest, evs (startChainDownload_locked C p w) = EvHeight :: rest.
Proof.
  intros Hs. unfold startChainDownload_locked. run. rewrite Hs.
  rewrite bool_decide_eq_true_2 by reflexivity.
  repeat match goal with
         | |- context [match ?x with _ => _ end] =>
             lazymatch x with
             | context [match _ with _ => _ end] => fail
             | _ => destruct x
             end
         end; cbn [evs]; eauto.
Qed.


(** ** The driver, beyond the end of the download *)

Lemma startChainDownload_behind (p : Peer) (w : Wallet) :
  chainState w = SYNCING ->
  db_Height C (ext w) < to_uint32 (LastBlock p) ->
  startChainDownload C p w =
  mkRes (Ok tt) w
        [EvLock; EvHeight; EvGetBlockLocatorHashes;
         EvQueueMessage p (MsgGetBlocks (GetBlockLocatorHashes C (ext w)) zeroHash);
         EvUnlock].
Proof.
  intros Hs Hh. unfold startChainDownload, startChainDownload_locked. run.
  rewrite Hs. rewrite bool_decide_eq_true_2 by reflexivity.
  apply Z.leb_gt in Hh. rewrite Hh. reflexivity.
Qed.

(** While the chain state is SYNCING and the chain is below the last block
    of the peer, [startChainDownload] changes nothing in the wallet and
    queues one [getblocks] to the peer: its locator is the one of the
    header chain and its stop hash is the zero hash, and the message is the
    only one sent. *)
Theorem startChainDownload_requests (p : Peer) (w : Wallet) :
  chainState w = SYNCING ->
  db_Height C (ext w) < to_uint32 (LastBlock p) ->
  let r := startChainDownload C p w in
  out r = Ok tt /\
  st r = w /\
  sends (evs r) =
    [EvQueueMessage p (MsgGetBlocks (GetBlockLocatorHashes C (ext w)) zeroHash)] /\
  (forall h, EvCheckForMoreBlocks h ∉ evs r) /\
  EvCloseBlockQueue ∉ evs r.
Proof.
  intros Hs Hh r. subst r. rewrite startChainDownload_behind by assumption.
  cbn [out st evs]. repeat split.
  - intros h Hin. repeat (apply elem_of_cons in Hin as [Hin|Hin]; [discriminate|]).
    now apply elem_of_nil in Hin.
  - intros Hin. repeat (apply elem_of_cons in Hin as [Hin|Hin]; [discriminate|]).
    now apply elem_of_nil in Hin.
Qed.

Lemma to_uint32_negative (z : Z) : -(2 ^ 32) <= z < 0 -> to_uint32 z = z + 2 ^ 32.
Proof.
  intros H. unfold to_uint32.
  rewrite <- (Z.mod_add z 1 (2 ^ 32)) by lia. rewrite Z.mod_small; lia.
Qed.

(** A peer whose last block is negative is never taken to be caught up
    with: whatever the height of the chain below 2^31, [startChainDownload]
    asks it for blocks and the chain state stays SYNCING. *)
Theorem startChainDownload_negative_LastBlock (p : Peer) (w : Wallet) :
  chainState w = SYNCING ->
  -(2 ^ 31) <= LastBlock p < 0 ->
  0 <= db_Height C (ext w) < 2 ^ 31 ->
  let r := startChainDownload C p w in
  chainState (st r) = SYNCING /\
  closed (blockQueue (st r)) = closed (blockQueue w) /\
  EvQueueMessage p (MsgGetBlocks (GetBlockLocatorHashes C (ext w)) zeroHash) ∈ evs r.
Proof.
  intros Hs Hl Hh r. subst r. rewrite startChainDownload_behind.
  - cbn [out st evs]. split; [exact Hs|]. split; [reflexivity|].
    rewrite !elem_of_cons. do 3 right. now left.
  - exact Hs.
  - rewrite to_uint32_negative by lia. lia.
Qed.

Lemma startChainDownload_locked_out (p : Peer) (w : Wallet) :
  out (startChainDownload_locked C p w) <> Blocked.
Proof.
  unfold startChainDownload_locked. run.
  destruct (bool_decide (chainState w = SYNCING)); [|discriminate].
  destruct (_ <=? _); [|discriminate].
  destruct (fst _); cbn [negb]; [discriminate|].
  run. rewrite Rebroadcast_run. run.
  destruct (fst (GetPendingInv C _)); [|discriminate].
  unfold close_blockQueue. run.
  destruct (closed (blockQueue w)); discriminate.
Qed.

Lemma startChainDownload_locked_no_mutex (p : Peer) (w : Wallet) :
  forall e, e ∈ evs (startChainDownload_locked C p w) -> e <> EvLock /\ e <> EvUnlock.
Proof.
  assert (H : respects (fun _ : Wallet => True)
                (Forall (fun e : Ev => e <> EvLock /\ e <> EvUnlock))
                (startChainDownload_locked C p)).
  { unfold startChainDownload_locked, Rebroadcast.
    split_run (Forall_nil_2 (fun e : Ev => e <> EvLock /\ e <> EvUnlock))
              (Forall_app_2 (fun e : Ev => e <> EvLock /\ e <> EvUnlock))
      ltac:(first [ intros w0 _; unfold close_blockQueue; cbv zeta;
                    destruct (closed (blockQueue w0));
                    (split; [repeat constructor; discriminate | exact Logic.I])
                  | intros w0 _; run;
                    (split; [repeat constructor; discriminate | exact Logic.I]) ]). }
  destruct (H w Logic.I) as [Hf _]. now rewrite Forall_forall in Hf.
Qed.

Lemma startChainDownload_out (p : Peer) (w : Wallet) :
  out (startChainDownload C p w) = Ok tt.
Proof.
  pose proof (startChainDownload_locked_out p w) as Hb.
  unfold startChainDownload. run.
  destruct (startChainDownload_locked C p w) as [[[]|e|] w1 e1]; cbn [out] in *;
    [reflexivity | reflexivity | now elim Hb].
Qed.

(** [startChainDownload] always returns: a run-time error in its body, be it
    in [Rebroadcast] or in the second close of the block queue, is recovered
    and logged.  It takes the mutex once and releases it once, after the last
    effect of its body, also when the body failed.  When the chain state is
    not SYNCING it does nothing else. *)
Theorem startChainDownload_returns (p : Peer) (w : Wallet) :
  let r := startChainDownload C p w in
  out r = Ok tt /\
  (exists body tail,
     evs r = EvLock :: body ++ EvUnlock :: tail /\
     (EvLock ∉ body) /\ (EvUnlock ∉ body) /\
     (tail = [] \/ tail = [EvLog "Unhandled error in startChainDownload"])) /\
  (chainState w <> SYNCING -> st r = w /\ evs r = [EvLock; EvUnlock]).
Proof.
  intros r. subst r. split; [|split].
  - apply startChainDownload_out.
  - exists (evs (startChainDownload_locked C p w)).
    pose proof (startChainDownload_locked_out p w) as Hb.
    exists (match out (startChainDownload_locked C p w) with
            | Panic _ => [EvLog "Unhandled error in startChainDownload"]
            | _ => []
            end).
    split; [|split; [|split]].
    + rewrite startChainDownload_evs.
      destruct (out (startChainDownload_locked C p w)); [reflexivity | reflexivity | now elim Hb].
    + intros Hin. now destruct (startChainDownload_locked_no_mutex p w _ Hin).
    + intros Hin. now destruct (startChainDownload_locked_no_mutex p w _ Hin).
    + destruct (out (startChainDownload_locked C p w)); auto.
  - intros Hs. unfold startChainDownload, startChainDownload_locked. run.
    rewrite bool_decide_eq_false_2 by exact Hs. now split.
Qed.


(** ** Handlers that return *)

Lemma completes_ret {A} (a : A) : completes (ret a : Run A).
Proof. intros w. now exists a. Qed.

Lemma completes_bind {A B} (c : Run A) (k : A -> Run B) :
  completes c -> (forall a, completes (k a)) -> completes (bind c k).
Proof.
  intros Hc Hk w. rewrite bind_eq. destruct (Hc w) as [a ->]. cbn [out].
  apply Hk.
Qed.

Lemma completes_for_each {A} (f : A -> Run unit) (l : list A) :
  (forall x, completes (f x)) -> completes (for_each f l).
Proof.
  intros Hf. induction l as [|x l IH]; cbn [for_each].
  - apply completes_ret.
  - apply completes_bind; auto.
Qed.

(** Splits a handler as [split_run] does, for [completes]. *)
Ltac split_completes :=
  repeat first
    [ solve [let w := fresh "w" in intros w; run; eexists; reflexivity]
    | apply completes_ret
    | apply completes_bind; [|intros ?]
    | apply completes_for_each; intros ?
    | match goal with
      | |- completes (match ?x with _ => _ end) => destruct x
      end ].

Lemma sweep_completes (now : Z) : completes (sweep C now).
Proof. unfold sweep, sweepTxn. split_completes. Qed.

Lemma onMerkleBlock_ordered_completes (p : Peer) (m : MsgMerkleBlock) (now : Z) :
  completes (onMerkleBlock_ordered C p m now).
Proof.
  pose proof (sweep_completes now) as Hsweep.
  unfold onMerkleBlock_ordered.
  repeat first
    [ exact Hsweep
    | solve [let w := fresh "w" in intros w; run; eexists; reflexivity]
    | apply completes_ret
    | apply completes_bind; [|intros ?]
    | apply completes_for_each; intros ?
    | match goal with
      | |- completes (match ?x with _ => _ end) => destruct x
      end ].
Qed.

Lemma onTx_completes (p : Peer) (m : MsgTx) : completes (onTx C p m).
Proof. intros w. rewrite onTx_run. now exists tt. Qed.

Lemma onGetData_completes (p : Peer) (m : InvList) : completes (onGetData C p m).
Proof. unfold onGetData. split_completes. Qed.

Lemma fPositive_completes (peer : Peer) : completes (fPositive C peer).
Proof. intros w. rewrite fPositive_run. destruct (7 <? _); now exists tt. Qed.

Lemma outcome_unit (o : Outcome unit) : (exists a, o = Ok a) -> o = Ok tt.
Proof. intros [[] ->]. reflexivity. Qed.

(** [onMerkleBlock] waits exactly when the chain state is SYNCING, the
    sender is the download peer and the block queue is empty and open: it
    then has done nothing yet.  In every other state it returns. *)
Theorem onMerkleBlock_waits (p : Peer) (m : MsgMerkleBlock) (now : Z) (w : Wallet) :
  let r := onMerkleBlock C p m now w in
  let expecting :=
    chainState w = SYNCING /\
    (exists d, DownloadPeer C (ext w) = Some d /\ ID d = ID p) /\
    buf (blockQueue w) = [] /\
    closed (blockQueue w) = false in
  (expecting -> r = mkRes Blocked w []) /\
  (~ expecting -> out r = Ok tt).
Proof.
  intros r expecting. subst r expecting. unfold onMerkleBlock.
  rewrite bind_eq, syncingWith_run. cbn [out st evs app].
  split.
  - intros (Hs & (d & Hd & Hid) & Hb & Hc).
    rewrite Hs, Hd, Hid, Z.eqb_refl. rewrite bool_decide_eq_true_2 by reflexivity.
    cbn [andb]. rewrite bind_eq. unfold recv_blockQueue. cbv zeta. rewrite Hb, Hc. reflexivity.
  - intros Hn.
    destruct (bool_decide (chainState w = SYNCING) && _) eqn:G.
    + apply andb_prop in G as [Hs Hd]. apply bool_decide_eq_true in Hs.
      destruct (DownloadPeer C (ext w)) as [d|] eqn:Hdp; [|discriminate].
      apply Z.eqb_eq in Hd.
      rewrite bind_eq. unfold recv_blockQueue at 1. cbv zeta.
      destruct (buf (blockQueue w)) as [|q rest] eqn:Hb.
      * destruct (closed (blockQueue w)) eqn:Hc.
        -- cbn [out st evs]. destruct (negb _); [reflexivity|].
           cbn [out]. apply outcome_unit, onMerkleBlock_ordered_completes.
        -- elim Hn. repeat split; eauto.
      * cbn [out st evs]. destruct (negb _); [reflexivity|].
        cbn [out]. apply outcome_unit, onMerkleBlock_ordered_completes.
    + cbn [out]. apply outcome_unit, onMerkleBlock_ordered_completes.
Qed.

(** No call of a handler ends in a run-time error: the two handlers that can
    fail, [startChainDownload] and the goroutine of [onInv], recover from it
    and log it, and the other handlers have nothing that can fail. *)
Theorem handlers_never_panic (h : Handler MsgTx) (w : Wallet) :
  forall r, out (handle C h w) <> Panic r.
Proof.
  intros r. destruct h as [p|p m now|p m|p m|p m|sel]; cbn [handle].
  - now rewrite startChainDownload_out.
  - unfold onMerkleBlock. rewrite bind_eq, syncingWith_run. cbn [out st evs app].
    destruct (_ && _).
    + rewrite bind_eq. unfold recv_blockQueue at 1. cbv zeta.
      destruct (buf (blockQueue w)); [destruct (closed (blockQueue w))|];
        cbn [out st evs]; try discriminate;
        (destruct (negb _); [discriminate|]); cbn [out];
        match goal with
        | |- out (onMerkleBlock_ordered C p m now ?w') <> _ =>
            destruct (onMerkleBlock_ordered_completes p m now w') as [a ->]
        end; discriminate.
    + cbn [out]. destruct (onMerkleBlock_ordered_completes p m now w) as [a ->]. discriminate.
  - destruct (onTx_completes p m w) as [a ->]. discriminate.
  - unfold onInv, recover.
    destruct (for_each (onInv_item C p) m w) as [[a|e|] w1 e1]; cbn [out]; discriminate.
  - destruct (onGetData_completes p m w) as [a ->]. discriminate.
  - revert w. induction sel as [|[peer|] sel IH]; intros w; cbn [fPositiveHandler].
    + discriminate.
    + rewrite bind_eq. destruct (fPositive_completes peer w) as [a ->]. cbn [out]. apply IH.
    + discriminate.
Qed.


(** ** Blocks that extend the chain *)

Lemma sweep_sameEngine (now : Z) (w0 : Wallet) :
  respects (sameEngine w0) (Forall sweepOrLog) (sweep C now).
Proof.
  unfold sweep, sweepTxn.
  split_run (Forall_nil_2 (sweepOrLog (MsgTx := MsgTx) (Filter := Filter)))
            (Forall_app_2 (sweepOrLog (MsgTx := MsgTx) (Filter := Filter)))
    ltac:(let w := fresh "w" in
          let Hw := fresh "Hw" in
          intros w Hw; run; (split; [repeat constructor | exact Hw])).
Qed.

Lemma record_heights (v : Z) (txids : list Hash) :
  forall w : Wallet,
    for_each (fun txid => bind (emit (EvLock : Ev))
                (fun _ => bind (set_toDownload txid v) (fun _ => emit EvUnlock))) txids w =
    mkRes (Ok tt)
          (with_toDownload (foldl (fun td txid => <[txid := v]> td) (toDownload w) txids) w)
          (concat (map (fun _ => [EvLock; EvUnlock]) txids)).
Proof.
  induction txids as [|k txids IH]; intros w; cbn [for_each foldl map concat].
  - destruct w; reflexivity.
  - rewrite bind_eq. rewrite IH. destruct w; reflexivity.
Qed.

Lemma lookup_recorded (v : Z) (txids : list Hash) :
  forall (td : gmap Z Z) (k : Hash),
    foldl (fun td txid => <[txid := v]> td) td txids !! k =
    if decide (k ∈ txids) then Some v else td !! k.
Proof.
  induction txids as [|t txids IH]; intros td k; cbn [foldl].
  - rewrite decide_False; [reflexivity | apply not_elem_of_nil].
  - rewrite IH. destruct (decide (k ∈ txids)) as [Hin|Hin].
    + rewrite decide_True; [reflexivity | now apply elem_of_cons; right].
    + destruct (decide (k = t)) as [->|Hne].
      * rewrite lookup_insert_eq. rewrite decide_True; [reflexivity | apply elem_of_cons; now left].
      * rewrite lookup_insert_ne by congruence.
        rewrite decide_False; [reflexivity|]. rewrite elem_of_cons. tauto.
Qed.

Lemma locks_only (txids : list Hash) (e : Ev) :
  e ∈ concat (map (fun _ : Hash => [EvLock; EvUnlock]) txids) ->
  e = EvLock \/ e = EvUnlock.
Proof.
  induction txids as [|t l IH]; cbn [map concat app].
  - intros Hin. now apply elem_of_nil in Hin.
  - rewrite !elem_of_cons. intros [->|[->|Hin]]; auto.
Qed.

Lemma orderCheck_frame (p : Peer) (m : MsgMerkleBlock) (w w1 : Wallet) :
  orderCheck C p m w = Some w1 ->
  chainState w1 = chainState w /\ toDownload w1 = toDownload w /\
  fpAccumulator w1 = fpAccumulator w /\ ext w1 = ext w.
Proof.
  unfold orderCheck.
  destruct (out (syncingWith C p w)) as [[]| |]; try (now intros [= <-]).
  destruct (out (recv_blockQueue w)); try discriminate.
  destruct (_ =? _); try discriminate.
  intros [= <-]. rewrite recv_blockQueue_st. now repeat split.
Qed.

Lemma onMerkleBlock_ordered_new (p : Peer) (m : MsgMerkleBlock) (now : Z) (w1 : Wallet)
    (txids : list Hash) (h : Z) (x1 : Ext) :
  checkMBlock C m = inl txids ->
  CommitHeader C (Header m) (ext w1) = ((true, None, h, None), x1) ->
  let w2 := with_toDownload
              (foldl (fun td txid => <[txid := to_int32 h]> td) (toDownload w1) txids)
              (with_ext (fun _ => x1) w1) in
  let s := sweep C now w2 in
  onMerkleBlock_ordered C p m now w1 =
  mkRes (out s) (st s)
        (EvCommitHeader (Header m) :: concat (map (fun _ => [EvLock; EvUnlock]) txids) ++
         EvLog "Received Merkle Block" ::
         (if (length (buf (blockQueue w1)) =? 0)%nat && bool_decide (chainState w1 = SYNCING)
          then [EvGoStartChainDownload p] else []) ++ evs s).
Proof.
  intros Hc Hcommit w2 s. unfold onMerkleBlock_ordered. rewrite Hc.
  unfold bind at 1, call at 1. cbn [out st evs fst snd]. rewrite Hcommit.
  cbn [fst snd negb].
  unfold bind at 1. rewrite record_heights.
  change (with_toDownload _ (with_ext _ w1)) with w2.
  assert (Hrest : forall k : unit -> Run unit,
            (forall u, k u = sweep C now) ->
            bind (log "Received Merkle Block")
              (fun _ => bind len_blockQueue
                 (fun n => bind ChainState_
                    (fun s0 => bind
                       (if (n =? 0)%nat && bool_decide (s0 = SYNCING)
                        then emit (EvGoStartChainDownload p) else ret tt) k))) w2 =
            mkRes (out s) (st s)
                  (EvLog "Received Merkle Block" ::
                   (if (length (buf (blockQueue w1)) =? 0)%nat &&
                       bool_decide (chainState w1 = SYNCING)
                    then [EvGoStartChainDownload p] else []) ++ evs s)).
  { intros k Hk. run.
    change (blockQueue w2) with (blockQueue w1). change (chainState w2) with (chainState w1).
    destruct (_ && _); rewrite Hk; fold s; now destruct s. }
  rewrite (Hrest (fun _ => sweep C now)) by reflexivity.
  reflexivity.
Qed.

(** When the commit reports a new block without a reorg, [onMerkleBlock]
    records every matched transaction id in [toDownload] at the height of
    the block, taken as an [int32], and leaves the other ids as they were.
    It starts [startChainDownload] for the peer exactly when the block queue
    is then empty and the chain state is SYNCING.  The peer is not
    disconnected and the chain state does not change. *)
Theorem onMerkleBlock_records_heights (p : Peer) (m : MsgMerkleBlock) (now : Z)
    (w w1 : Wallet) (txids : list Hash) (h : Z) (x1 : Ext) :
  orderCheck C p m w = Some w1 ->
  checkMBlock C m = inl txids ->
  CommitHeader C (Header m) (ext w1) = ((true, None, h, None), x1) ->
  let r := onMerkleBlock C p m now w in
  out r = Ok tt /\
  (forall k, toDownload (st r) !! k =
             if decide (k ∈ txids) then Some (to_int32 h) else toDownload w !! k) /\
  chainState (st r) = chainState w /\
  blockQueue (st r) = blockQueue w1 /\
  fpAccumulator (st r) = fpAccumulator w /\
  (EvGoStartChainDownload p ∈ evs r <->
   buf (blockQueue w1) = [] /\ chainState w = SYNCING) /\
  (forall q, EvDisconnect q ∉ evs r).
Proof.
  intros Ho Hc Hcommit r. subst r.
  rewrite (onMerkleBlock_accepted _ _ _ _ _ Ho).
  destruct (orderCheck_frame _ _ _ _ Ho) as (Hcs & Htd & Hfp & _).
  rewrite (onMerkleBlock_ordered_new p m now w1 txids h x1 Hc Hcommit).
  set (w2 := with_toDownload _ _).
  destruct (sweep_sameEngine now w2 w2) as [Hev (Hs1 & Hs2 & Hs3 & Hs4)];
    [now repeat split|].
  rewrite Forall_forall in Hev.
  pose proof (locks_only txids) as Hlocks.
  cbn [out st evs]. split; [apply outcome_unit, sweep_completes|].
  split; [|split; [|split; [|split; [|split]]]].
  - intros k. rewrite Hs3. unfold w2. cbn [toDownload with_toDownload with_ext].
    rewrite lookup_recorded. now rewrite Htd.
  - now rewrite Hs1.
  - now rewrite Hs2.
  - now rewrite Hs4.
  - rewrite <- Hcs. split.
    + rewrite elem_of_cons, elem_of_app, elem_of_cons, elem_of_app.
      intros [Hin|[Hin|[Hin|[Hin|Hin]]]]; try discriminate.
      * destruct (Hlocks _ Hin); discriminate.
      * destruct (_ && _) eqn:G; [|now apply elem_of_nil in Hin].
        apply andb_prop in G as [Hl Hs]. apply Nat.eqb_eq in Hl.
        apply bool_decide_eq_true in Hs. split; [|exact Hs].
        now destruct (buf (blockQueue w1)).
      * now apply Hev in Hin.
    + intros [Hb Hs]. rewrite Hb, Hs. rewrite bool_decide_eq_true_2 by reflexivity.
      cbn [length Nat.eqb andb].
      rewrite elem_of_cons, elem_of_app, elem_of_cons, elem_of_app.
      do 3 right. left. apply elem_of_cons. now left.
  - intros q. rewrite elem_of_cons, elem_of_app, elem_of_cons, elem_of_app.
    intros [Hin|[Hin|[Hin|[Hin|Hin]]]]; try discriminate.
    + destruct (Hlocks _ Hin); discriminate.
    + destruct (_ && _); [|now apply elem_of_nil in Hin].
      apply elem_of_cons in Hin as [Hin|Hin]; [discriminate | now apply elem_of_nil in Hin].
    + now apply Hev in Hin.
Qed.


(** ** Disconnections and replies *)

(** Closes a goal on a primitive effect whose events all satisfy the
    predicate at hand, whatever the state. *)
Ltac forall_run :=
  let w := fresh "w" in
  intros w _;
  first [ rewrite send_blockQueue_evs
        | rewrite recv_blockQueue_evs
        | unfold close_blockQueue; cbv zeta; destruct (closed (blockQueue w))
        | idtac ];
  run; (split; [repeat constructor | exact Logic.I]).

Lemma evs_respect {A} (P : Ev -> Prop) (c : Run A) (w : Wallet) :
  respects (fun _ : Wallet => True) (Forall P) c -> Forall P (evs (c w)).
Proof. intros H. now destruct (H w Logic.I). Qed.

Lemma onMerkleBlock_ordered_keepsPeer (p : Peer) (m : MsgMerkleBlock) (now : Z) (w : Wallet)
    (txids : list Hash) :
  checkMBlock C m = inl txids ->
  Forall keepsPeer (evs (onMerkleBlock_ordered C p m now w)).
Proof.
  intros Hc. apply evs_respect.
  unfold onMerkleBlock_ordered, sweep, sweepTxn. rewrite Hc.
  split_run (Forall_nil_2 (keepsPeer (MsgTx := MsgTx) (Filter := Filter)))
            (Forall_app_2 (keepsPeer (MsgTx := MsgTx) (Filter := Filter)))
    ltac:(forall_run).
Qed.

Lemma handle_keepsPeer (h : Handler MsgTx) (w : Wallet) :
  (forall p m now, h <> OnMerkleBlock p m now) ->
  Forall keepsPeer (evs (handle C h w)).
Proof.
  intros Hh. destruct h as [p|p m now|p m|p m|p m|sel]; cbn [handle].
  - apply evs_respect. unfold startChainDownload, startChainDownload_locked, Rebroadcast.
    split_run (Forall_nil_2 (keepsPeer (MsgTx := MsgTx) (Filter := Filter)))
              (Forall_app_2 (keepsPeer (MsgTx := MsgTx) (Filter := Filter)))
      ltac:(forall_run).
  - now elim (Hh p m now).
  - apply evs_respect. unfold onTx, updateFilterAndSend.
    split_run (Forall_nil_2 (keepsPeer (MsgTx := MsgTx) (Filter := Filter)))
              (Forall_app_2 (keepsPeer (MsgTx := MsgTx) (Filter := Filter)))
      ltac:(forall_run).
  - apply evs_respect. unfold onInv, onInv_item.
    split_run (Forall_nil_2 (keepsPeer (MsgTx := MsgTx) (Filter := Filter)))
              (Forall_app_2 (keepsPeer (MsgTx := MsgTx) (Filter := Filter)))
      ltac:(forall_run).
  - apply evs_respect. unfold onGetData.
    split_run (Forall_nil_2 (keepsPeer (MsgTx := MsgTx) (Filter := Filter)))
              (Forall_app_2 (keepsPeer (MsgTx := MsgTx) (Filter := Filter)))
      ltac:(forall_run).
  - apply evs_respect. clear Hh. induction sel as [|[peer|] sel IH]; cbn [fPositiveHandler].
    + forall_run.
    + apply (respects_bind _ _ (Forall_app_2 (keepsPeer (MsgTx := MsgTx) (Filter := Filter))));
        [|intros _; exact IH].
      unfold fPositive, updateFilterAndSend.
      split_run (Forall_nil_2 (keepsPeer (MsgTx := MsgTx) (Filter := Filter)))
                (Forall_app_2 (keepsPeer (MsgTx := MsgTx) (Filter := Filter)))
        ltac:(forall_run).
    + forall_run.
Qed.

(** [onMerkleBlock] queues no message at all, and every message that
    [onTx], [onInv] and [onGetData] queue goes to the peer whose message
    they handle. *)
Theorem replies_go_to_sender (p : Peer) (w : Wallet) :
  (forall m now, sends (evs (onMerkleBlock C p m now w)) = []) /\
  (forall m, Forall (toSender p) (evs (onTx C p m w))) /\
  (forall m, Forall (toSender p) (evs (onInv C p m w))) /\
  (forall m, Forall (toSender p) (evs (onGetData C p m w))).
Proof.
  split; [|split; [|split]].
  - intros m now.
    assert (H : Forall (fun e : Ev => isSend e = false) (evs (onMerkleBlock C p m now w))).
    { apply evs_respect. unfold onMerkleBlock, onMerkleBlock_ordered, sweep, sweepTxn.
      split_run (Forall_nil_2 (fun e : Ev => isSend e = false))
                (Forall_app_2 (fun e : Ev => isSend e = false))
        ltac:(forall_run). }
    unfold sends. induction H as [|e l He Hl IH]; [reflexivity|].
    rewrite filter_cons. rewrite decide_False by (rewrite He; discriminate). exact IH.
  - intros m. apply evs_respect. unfold onTx, updateFilterAndSend.
    split_run (Forall_nil_2 (toSender (MsgTx := MsgTx) (Filter := Filter) p))
              (Forall_app_2 (toSender (MsgTx := MsgTx) (Filter := Filter) p))
      ltac:(forall_run).
  - intros m. apply evs_respect. unfold onInv, onInv_item.
    split_run (Forall_nil_2 (toSender (MsgTx := MsgTx) (Filter := Filter) p))
              (Forall_app_2 (toSender (MsgTx := MsgTx) (Filter := Filter) p))
      ltac:(forall_run).
  - intros m. apply evs_respect. unfold onGetData.
    split_run (Forall_nil_2 (toSender (MsgTx := MsgTx) (Filter := Filter) p))
              (Forall_app_2 (toSender (MsgTx := MsgTx) (Filter := Filter) p))
      ltac:(forall_run).
Qed.


(** ** Inventories while the queue is open *)

Lemma onInv_item_request (p : Peer) (inv : InvVect) (w : Wallet) :
  evs (onInv_item C p inv w) = requests p [inv].
Proof.
  unfold onInv_item, requests. cbn [omap list_omap].
  destruct (inv_Type inv =? InvTypeBlock).
  - rewrite bind_eq. cbn [QueueMessage emit out st evs]. rewrite bind_eq, syncingWith_run.
    cbn [out st evs app]. destruct (_ && _); [|reflexivity].
    now rewrite send_blockQueue_evs.
  - destruct (inv_Type inv =? InvTypeTx); reflexivity.
Qed.

Lemma requests_app (p : Peer) (l1 l2 : InvList) :
  (requests p (l1 ++ l2) : list Ev) = requests p l1 ++ requests p l2.
Proof. apply omap_app. Qed.

Lemma onInv_item_push (p d : Peer) (inv : InvVect) (w : Wallet) :
  chainState w = SYNCING ->
  DownloadPeer C (ext w) = Some d ->
  ID d = ID p ->
  closed (blockQueue w) = false ->
  (length (buf (blockQueue w)) < cap (blockQueue w))%nat ->
  inv_Type inv = InvTypeBlock ->
  onInv_item C p inv w =
  mkRes (Ok tt)
        (with_blockQueue
           (mkChan (buf (blockQueue w) ++ [inv_Hash inv]) (cap (blockQueue w)) false) w)
        [EvQueueMessage p (MsgGetData [mkInvVect InvTypeFilteredBlock (inv_Hash inv)])].
Proof.
  intros Hs Hd Hid Hc Hl Ht. unfold onInv_item, send_blockQueue. rewrite Ht, Z.eqb_refl. run.
  rewrite Hs, Hd, Hid, Z.eqb_refl. rewrite bool_decide_eq_true_2 by reflexivity.
  run. rewrite Hc. apply Nat.ltb_lt in Hl. now rewrite Hl.
Qed.

Lemma onInv_pushes (p d : Peer) (m : InvList) :
  forall w : Wallet,
    chainState w = SYNCING ->
    DownloadPeer C (ext w) = Some d ->
    ID d = ID p ->
    closed (blockQueue w) = false ->
    (length (buf (blockQueue w)) + length (announced m) <= cap (blockQueue w))%nat ->
    for_each (onInv_item C p) m w =
    mkRes (Ok tt)
          (with_blockQueue
             (mkChan (buf (blockQueue w) ++ announced m) (cap (blockQueue w)) false) w)
          (requests p m).
Proof.
  induction m as [|inv m IH]; intros w Hs Hd Hid Hc Hl.
  - cbn [for_each announced requests omap list_omap]. rewrite app_nil_r.
    destruct w as [cs [b c cl] td fp x]. cbn in *. now subst cl.
  - cbn [for_each]. rewrite bind_eq.
    unfold announced, requests in *. cbn [omap list_omap] in *.
    destruct (inv_Type inv =? InvTypeBlock) eqn:Ht.
    + apply Z.eqb_eq in Ht. cbn [length] in Hl.
      rewrite (onInv_item_push p d inv w) by (try assumption; lia).
      cbn [out st evs].
      rewrite IH; cbn [with_blockQueue blockQueue chainState ext buf cap closed];
        try assumption; try reflexivity.
      * cbn [out st evs app]. now rewrite <- app_assoc.
      * rewrite length_app. cbn [length]. lia.
    + apply Z.eqb_neq in Ht. rewrite onInv_item_other by exact Ht. cbn [out st evs].
      rewrite IH by assumption. cbn [out st evs].
      now destruct (inv_Type inv =? InvTypeTx).
Qed.

(** While the chain state is SYNCING, the block queue is open and has room,
    an inventory from the download peer is answered by one request for each
    block and each transaction it announces, in its order, and the hashes of
    its blocks are appended to the block queue in that order; items of other
    types are passed over. *)
Theorem onInv_registers (p d : Peer) (m : InvList) (w : Wallet) :
  chainState w = SYNCING ->
  DownloadPeer C (ext w) = Some d ->
  ID d = ID p ->
  closed (blockQueue w) = false ->
  (length (buf (blockQueue w)) + length (announced m) <= cap (blockQueue w))%nat ->
  let r := onInv C p m w in
  out r = Ok tt /\
  evs r = requests p m /\
  blockQueue (st r) = mkChan (buf (blockQueue w) ++ announced m) (cap (blockQueue w)) false /\
  sameEngine (with_blockQueue (blockQueue (st r)) w) (st r) /\
  ext (st r) = ext w.
Proof.
  intros Hs Hd Hid Hc Hl r. subst r. unfold onInv, recover.
  rewrite (onInv_pushes p d m w Hs Hd Hid Hc Hl). cbn [out st evs].
  now repeat split.
Qed.

Lemma onInv_unregistered (p : Peer) (m : InvList) (w : Wallet) :
  out (syncingWith C p w) = Ok false ->
  for_each (onInv_item C p) m w = mkRes (Ok tt) w (requests p m).
Proof.
  rewrite syncingWith_run. cbn [out]. intros [= G].
  induction m as [|inv m IH]; [reflexivity|].
  cbn [for_each]. rewrite bind_eq.
  change (inv :: m) with ([inv] ++ m). rewrite requests_app.
  assert (Hw : onInv_item C p inv w = mkRes (Ok tt) w (requests p [inv])).
  { unfold onInv_item, requests. cbn [omap list_omap].
    destruct (inv_Type inv =? InvTypeBlock).
    - run. rewrite G. reflexivity.
    - now destruct (inv_Type inv =? InvTypeTx). }
  rewrite Hw. cbn [out st evs]. now rewrite IH.
Qed.

(** When the chain state is not SYNCING, or the sender is not the download
    peer, [onInv] sends the same requests and leaves the wallet as it is: the
    block queue is not touched, be it open, full or closed. *)
Theorem onInv_other_peer (p : Peer) (m : InvList) (w : Wallet) :
  (chainState w = SYNCING ->
   forall d, DownloadPeer C (ext w) = Some d -> ID d <> ID p) ->
  onInv C p m w = mkRes (Ok tt) w (requests p m).
Proof.
  intros H. unfold onInv, recover. rewrite onInv_unregistered; [reflexivity|].
  rewrite syncingWith_run. cbn [out]. f_equal.
  destruct (chainState w) eqn:Hs; [|reflexivity].
  rewrite bool_decide_eq_true_2 by reflexivity. cbn [andb].
  destruct (DownloadPeer C (ext w)) as [d|] eqn:Hd; [|reflexivity].
  apply Z.eqb_neq. now apply H.
Qed.


(** ** Requests for data *)

Lemma sends_app (l1 l2 : list Ev) : sends (l1 ++ l2) = sends l1 ++ sends l2.
Proof. apply filter_app. Qed.

Lemma sends_messages {A} (f : A -> Peer) (g : A -> Msg MsgTx Filter) (l : list A) :
  sends (map (fun x => EvQueueMessage (f x) (g x)) l) = map (fun x => EvQueueMessage (f x) (g x)) l.
Proof.
  unfold sends. induction l as [|x l IH]; [reflexivity|].
  cbn [map]. rewrite filter_cons. rewrite decide_True by reflexivity. now rewrite IH.
Qed.

Lemma onGetData_loop (p : Peer) (m : InvList) (w : Wallet) :
  let r := for_each (fun thing =>
                       if inv_Type thing =? InvTypeTx then
                         bind (query (EvGet (inv_Hash thing)) (Txns_Get C (inv_Hash thing)))
                           (fun r => match r with
                                     | inr err => log "Error getting tx"
                                     | inl tx => QueueMessage p (MsgTxOut tx)
                                     end)
                       else log "We only respond to tx requests, ignoring") m w in
  out r = Ok tt /\ st r = w /\ sends (evs r) = served C p (ext w) m.
Proof.
  cbv zeta. set (F := fun thing : InvVect => _).
  induction m as [|thing m IH]; [now repeat split|].
  cbn [for_each]. rewrite bind_eq.
  destruct IH as (Ho & Hs & He).
  assert (HF : exists l, F thing w = mkRes (Ok tt) w l /\
                         sends l = served C p (ext w) [thing]).
  { subst F. cbv beta. unfold served. cbn [omap list_omap].
    destruct (inv_Type thing =? InvTypeTx).
    - run. destruct (Txns_Get C (inv_Hash thing) (ext w)) as [tx|e]; run; eauto.
    - run. eauto. }
  destruct HF as (l & -> & Hl). cbn [out st evs].
  rewrite Ho, Hs. split; [reflexivity|]. split; [reflexivity|].
  rewrite sends_app, He, Hl. unfold served. now rewrite <- omap_app.
Qed.

(** [onGetData] leaves the wallet as it is and answers the requests for
    transactions that the store finds, in the order of the requests, each
    with the transaction itself; requests for anything else and requests the
    store cannot answer get no reply. *)
Theorem onGetData_serves (p : Peer) (m : InvList) (w : Wallet) :
  let r := onGetData C p m w in
  out r = Ok tt /\
  st r = w /\
  sends (evs r) = served C p (ext w) m /\
  (length (sends (evs r)) <= length m)%nat.
Proof.
  intros r. subst r. unfold onGetData.
  destruct (onGetData_loop p m w) as (Ho & Hs & He).
  rewrite bind_eq. cbn [log emit out st evs]. rewrite bind_eq. rewrite Ho, Hs.
  cbn [log emit out st evs].
  split; [reflexivity|]. split; [reflexivity|].
  assert (Hsend : sends ([EvLog "Received getdata request from Peer"] ++
                         evs (for_each
                                (fun thing =>
                                   if inv_Type thing =? InvTypeTx then
                                     bind (query (EvGet (inv_Hash thing))
                                                 (Txns_Get C (inv_Hash thing)))
                                       (fun r => match r with
                                                 | inr err => log "Error getting tx"
                                                 | inl tx => QueueMessage p (MsgTxOut tx)
                                                 end)
                                   else log "We only respond to tx requests, ignoring") m w) ++
                         [EvLog "Sent requested items to Peer"]) = served C p (ext w) m).
  { rewrite !sends_app, He. cbn. now rewrite app_nil_r. }
  split; [exact Hsend|]. rewrite Hsend. unfold served.
  clear. induction m as [|thing m IH]; [reflexivity|].
  cbn [omap list_omap length].
  destruct (if inv_Type thing =? InvTypeTx then _ else _); cbn [length]; lia.
Qed.

(** ** Rebroadcast *)

(** When the store hands a pending inventory to [Rebroadcast], the wallet
    stays as it is; an empty inventory is sent to nobody, and any other is
    queued once to every connected peer, in their order, and is the same
    message for all. *)
Theorem Rebroadcast_announces (w : Wallet) (invMsg : InvList) :
  fst (GetPendingInv C (ext w)) = Some invMsg ->
  let r := Rebroadcast C w in
  out r = Ok tt /\
  st r = w /\
  sends (evs r) =
    match invMsg with
    | [] => []
    | _ => map (fun peer => EvQueueMessage peer (MsgInv invMsg)) (ConnectedPeers C (ext w))
    end.
Proof.
  intros Hp r. subst r. rewrite Rebroadcast_run. rewrite Hp. cbn [out st evs].
  split; [reflexivity|]. split; [reflexivity|].
  unfold announce. rewrite Hp.
  change (EvGetPendingInv :: ?l) with ([EvGetPendingInv : Ev] ++ l).
  rewrite !sends_app.
  assert (Hlog : sends (match snd (GetPendingInv C (ext w)) with
                        | Some _ => [EvLog "Rebroadcast error" : Ev]
                        | None => []
                        end) = []) by (destruct (snd _); reflexivity).
  rewrite Hlog. cbn [app].
  destruct invMsg as [|i l]; [reflexivity|].
  cbn [length Nat.eqb].
  apply (sends_messages (fun peer => peer) (fun _ => MsgInv (i :: l))).
Qed.


(** ** The counters of false positives, in general *)

Lemma bounded_counter (w : Wallet) (pid : Z) :
  bounded w -> 0 <= default 0 (fpAccumulator w !! pid) <= 7.
Proof.
  intros Hb. destruct (fpAccumulator w !! pid) as [c|] eqn:E; cbn [default from_option id]; [|lia].
  exact (Hb pid c E).
Qed.

Lemma fPositive_counter (peer : Peer) (w : Wallet) (pid : Z) :
  bounded w ->
  let r := fPositive C peer w in
  bounded (st r) /\
  default 0 (fpAccumulator (st r) !! pid) =
    (default 0 (fpAccumulator w !! pid) + (if ID peer =? pid then 1 else 0)) mod 8.
Proof.
  intros Hb r. subst r. rewrite fPositive_run.
  pose proof (bounded_counter w (ID peer) Hb) as Hc.
  pose proof (bounded_counter w pid Hb) as Hi.
  rewrite to_int32_small by lia.
  destruct (7 <? default 0 (fpAccumulator w !! ID peer) + 1) eqn:E; cbn [st].
  - apply Z.ltb_lt in E. split.
    + unfold bounded. cbn [with_fpAccumulator fpAccumulator].
      apply map_Forall_insert_2; [lia | exact Hb].
    + cbn [with_fpAccumulator fpAccumulator].
      destruct (ID peer =? pid) eqn:Hid.
      * apply Z.eqb_eq in Hid. subst pid. rewrite lookup_insert_eq. cbn [default from_option id].
        replace (default 0 (fpAccumulator w !! ID peer)) with 7 by lia. reflexivity.
      * apply Z.eqb_neq in Hid. rewrite lookup_insert_ne by exact Hid.
        rewrite Z.add_0_r, Z.mod_small; lia.
  - apply Z.ltb_ge in E. split.
    + unfold bounded. cbn [with_fpAccumulator fpAccumulator].
      apply map_Forall_insert_2; [lia | exact Hb].
    + cbn [with_fpAccumulator fpAccumulator].
      destruct (ID peer =? pid) eqn:Hid.
      * apply Z.eqb_eq in Hid. subst pid. rewrite lookup_insert_eq. cbn [default from_option id].
        rewrite Z.mod_small; lia.
      * apply Z.eqb_neq in Hid. rewrite lookup_insert_ne by exact Hid.
        rewrite Z.add_0_r, Z.mod_small; lia.
Qed.

Lemma fPositiveHandler_counts_aux (sel : list Select) :
  forall w : Wallet, bounded w ->
    bounded (st (fPositiveHandler C sel w)) /\
    forall pid,
      default 0 (fpAccumulator (st (fPositiveHandler C sel w)) !! pid) =
      (default 0 (fpAccumulator w !! pid) + misses pid sel) mod 8.
Proof.
  induction sel as [|[peer|] sel IH]; intros w Hb; cbn [fPositiveHandler misses].
  - cbn [block st]. split; [exact Hb|]. intros pid.
    pose proof (bounded_counter w pid Hb). rewrite Z.add_0_r, Z.mod_small; lia.
  - rewrite bind_eq. destruct (fPositive_completes peer w) as [[] Ho]. rewrite Ho.
    cbn [st]. destruct (fPositive_counter peer w 0 Hb) as [Hb1 _].
    destruct (IH _ Hb1) as [Hb2 Hc2]. split; [exact Hb2|]. intros pid.
    destruct (fPositive_counter peer w pid Hb) as [_ Hc1].
    rewrite Hc2, Hc1. rewrite Zplus_mod_idemp_l. f_equal. lia.
  - cbn [ret st]. split; [exact Hb|]. intros pid.
    pose proof (bounded_counter w pid Hb). rewrite Z.add_0_r, Z.mod_small; lia.
Qed.

(** When every counter is between 0 and 7, the counter that
    [fPositiveHandler] leaves for a peer is its counter before, plus the
    misses of that peer received before the handler is told to quit, modulo
    8: the misses of the other peers, in whatever order they come in between,
    do not count for it. *)
Theorem fPositiveHandler_counts (sel : list Select) (pid : Z) :
  forall w : Wallet,
    bounded w ->
    let r := fPositiveHandler C sel w in
    bounded (st r) /\
    default 0 (fpAccumulator (st r) !! pid) =
      (default 0 (fpAccumulator w !! pid) + misses pid sel) mod 8.
Proof.
  intros w Hb r. subst r. destruct (fPositiveHandler_counts_aux sel w Hb) as [H1 H2].
  split; [exact H1 | apply H2].
Qed.

Lemma refreshes_app (l1 l2 : list Ev) : refreshes (l1 ++ l2) = refreshes l1 + refreshes l2.
Proof. unfold refreshes. rewrite omap_app, length_app. lia. Qed.

Lemma refreshes_refresh (p : Peer) (x : Ext) : refreshes (refresh C p x) = 1.
Proof. unfold refresh. now destruct (GimmeFilter C x). Qed.


(** ** What the handlers keep *)

(** Closes a goal on a primitive effect that changes no field the invariant
    at hand reads. *)
Ltac frame_run :=
  let w := fresh "w" in
  let Hw := fresh "Hw" in
  intros w Hw;
  first [ rewrite recv_blockQueue_st
        | unfold send_blockQueue; cbv zeta;
          destruct (closed (blockQueue w)); [|destruct (_ <? _)%nat]
        | unfold close_blockQueue; cbv zeta; destruct (closed (blockQueue w))
        | idtac ];
  run; (split; [exact Logic.I | exact Hw]).

Lemma handle_bounded (h : Handler MsgTx) :
  respects (bounded (Ext := Ext)) (fun _ : list Ev => True) (handle C h).
Proof.
  destruct h as [p|p m now|p m|p m|p m|sel]; cbn [handle].
  - unfold startChainDownload, startChainDownload_locked, Rebroadcast.
    split_run Logic.I (fun (_ _ : list Ev) (_ _ : True) => Logic.I) ltac:(frame_run).
  - unfold onMerkleBlock, onMerkleBlock_ordered, sweep, sweepTxn.
    split_run Logic.I (fun (_ _ : list Ev) (_ _ : True) => Logic.I) ltac:(frame_run).
  - unfold onTx, updateFilterAndSend.
    split_run Logic.I (fun (_ _ : list Ev) (_ _ : True) => Logic.I) ltac:(frame_run).
  - unfold onInv, onInv_item.
    split_run Logic.I (fun (_ _ : list Ev) (_ _ : True) => Logic.I) ltac:(frame_run).
  - unfold onGetData.
    split_run Logic.I (fun (_ _ : list Ev) (_ _ : True) => Logic.I) ltac:(frame_run).
  - intros w Hw. split; [exact Logic.I|].
    exact (proj1 (fPositiveHandler_counts_aux sel w Hw)).
Qed.


(** Whatever the calls of the handlers, counters that are all between 0 and
    7 stay between 0 and 7: [fPositiveHandler] is the only handler that
    writes them, and it stores 0 in place of 8. *)
Theorem counters_stay_bounded (hs : list (Handler MsgTx)) :
  forall w : Wallet, bounded w -> bounded (handleAll C hs w).
Proof.
  induction hs as [|h hs IH]; intros w Hw; [exact Hw|].
  cbn [handleAll fold_left]. apply IH. now apply handle_bounded.
Qed.

Lemma handle_remembers (k : Hash) (h : Handler MsgTx) :
  respects (fun w : Wallet => is_Some (toDownload w !! k)) (fun _ : list Ev => True)
           (handle C h).
Proof.
  assert (Hfp : forall sel,
            respects (fun w : Wallet => is_Some (toDownload w !! k)) (fun _ : list Ev => True)
                     (fPositiveHandler C sel)).
  { induction sel as [|[peer|] sel IH]; cbn [fPositiveHandler].
    - frame_run.
    - apply (respects_bind _ _ (fun (_ _ : list Ev) (_ _ : True) => Logic.I));
        [|intros _; exact IH].
      unfold fPositive, updateFilterAndSend.
      split_run Logic.I (fun (_ _ : list Ev) (_ _ : True) => Logic.I) ltac:(frame_run).
    - frame_run. }
  destruct h as [p|p m now|p m|p m|p m|sel]; cbn [handle].
  - unfold startChainDownload, startChainDownload_locked, Rebroadcast.
    split_run Logic.I (fun (_ _ : list Ev) (_ _ : True) => Logic.I) ltac:(frame_run).
  - unfold onMerkleBlock, onMerkleBlock_ordered, sweep, sweepTxn.
    split_run Logic.I (fun (_ _ : list Ev) (_ _ : True) => Logic.I)
      ltac:(first [ frame_run
                  | let w := fresh "w" in
                    let Hw := fresh "Hw" in
                    intros w Hw; run;
                    (split; [exact Logic.I
                            | apply lookup_insert_is_Some'; right; exact Hw]) ]).
  - unfold onTx, updateFilterAndSend.
    split_run Logic.I (fun (_ _ : list Ev) (_ _ : True) => Logic.I) ltac:(frame_run).
  - unfold onInv, onInv_item.
    split_run Logic.I (fun (_ _ : list Ev) (_ _ : True) => Logic.I) ltac:(frame_run).
  - unfold onGetData.
    split_run Logic.I (fun (_ _ : list Ev) (_ _ : True) => Logic.I) ltac:(frame_run).
  - apply Hfp.
Qed.

(** No call of a handler removes a transaction id from [toDownload]: an id
    that has a height keeps having one, whatever is called afterwards. *)
Theorem toDownload_never_forgets (hs : list (Handler MsgTx)) (k : Hash) :
  forall w : Wallet,
    is_Some (toDownload w !! k) -> is_Some (toDownload (handleAll C hs w) !! k).
Proof.
  induction hs as [|h hs IH]; intros w Hw; [exact Hw|].
  cbn [handleAll fold_left]. apply IH. now apply handle_remembers.
Qed.

(** ** The chain state *)

Lemma handle_keeps_chainState (cs : ChainState) (h : Handler MsgTx) :
  (forall p, h <> StartChainDownload p) ->
  (forall p m now, h <> OnMerkleBlock p m now) ->
  respects (fun w : Wallet => chainState w = cs) (fun _ : list Ev => True) (handle C h).
Proof.
  intros H1 H2.
  destruct h as [p|p m now|p m|p m|p m|sel]; cbn [handle].
  - now elim (H1 p).
  - now elim (H2 p m now).
  - unfold onTx, updateFilterAndSend.
    split_run Logic.I (fun (_ _ : list Ev) (_ _ : True) => Logic.I) ltac:(frame_run).
  - unfold onInv, onInv_item.
    split_run Logic.I (fun (_ _ : list Ev) (_ _ : True) => Logic.I) ltac:(frame_run).
  - unfold onGetData.
    split_run Logic.I (fun (_ _ : list Ev) (_ _ : True) => Logic.I) ltac:(frame_run).
  - clear. induction sel as [|[peer|] sel IH]; cbn [fPositiveHandler].
    + frame_run.
    + apply (respects_bind _ _ (fun (_ _ : list Ev) (_ _ : True) => Logic.I));
        [|intros _; exact IH].
      unfold fPositive, updateFilterAndSend.
      split_run Logic.I (fun (_ _ : list Ev) (_ _ : True) => Logic.I) ltac:(frame_run).
    + frame_run.
Qed.

Lemma onMerkleBlock_ordered_WAITING (p : Peer) (m : MsgMerkleBlock) (now : Z) (w : Wallet) :
  chainState w = WAITING ->
  chainState (st (onMerkleBlock_ordered C p m now w)) = WAITING \/
  EvGoStartChainDownload p ∈ evs (onMerkleBlock_ordered C p m now w).
Proof.
  intros Hs. destruct (checkMBlock C m) as [txids|e] eqn:Hc.
  - destruct (CommitHeader C (Header m) (ext w)) as [[[[newBlock ro] h] err] x1] eqn:Hcommit.
    destruct err as [e|]; [|destruct newBlock; [destruct ro as [r|]|]].
    + left. unfold onMerkleBlock_ordered. rewrite Hc. run. rewrite Hcommit. run. exact Hs.
    + right. unfold onMerkleBlock_ordered. rewrite Hc. run. rewrite Hcommit. run.
      destruct (fst (processReorg C (height r) x1)); run;
        rewrite !elem_of_cons; intuition.
    + left. rewrite (onMerkleBlock_ordered_new p m now w txids h x1 Hc Hcommit). cbn [st].
      set (w2 := with_toDownload _ _).
      destruct (sweep_sameEngine now w2 w2) as [_ (Hs1 & _)]; [now repeat split|].
      rewrite Hs1. exact Hs.
    + left. unfold onMerkleBlock_ordered. rewrite Hc. run. rewrite Hcommit. run. exact Hs.
  - left. unfold onMerkleBlock_ordered. rewrite Hc. run. exact Hs.
Qed.

(** The chain state changes in two ways only.  From SYNCING to WAITING, by
    [startChainDownload].  From WAITING to SYNCING, by [onMerkleBlock], and
    then [startChainDownload] has been started for the sender of the
    block. *)
Theorem chainState_transitions (h : Handler MsgTx) (w : Wallet) :
  chainState (st (handle C h w)) <> chainState w ->
  (chainState w = SYNCING /\ exists p, h = StartChainDownload p) \/
  (chainState w = WAITING /\
   exists p m now, h = OnMerkleBlock p m now /\
                   EvGoStartChainDownload p ∈ evs (handle C h w)).
Proof.
  intros Hne. destruct h as [p|p m now|p m|p m|p m|sel].
  - destruct (chainState w) eqn:Hs; [left; eauto|].
    exfalso. apply Hne. cbn [handle].
    unfold startChainDownload, startChainDownload_locked. run. rewrite Hs.
    rewrite bool_decide_eq_false_2 by discriminate. exact Hs.
  - destruct (chainState w) eqn:Hs.
    + exfalso. apply Hne. now apply onMerkleBlock_no_sweep.
    + right. split; [reflexivity|]. exists p, m, now. split; [reflexivity|].
      cbn [handle] in *.
      assert (Ho : orderCheck C p m w = Some w).
      { unfold orderCheck. rewrite syncingWith_run. cbn [out]. rewrite Hs.
        rewrite bool_decide_eq_false_2 by discriminate. reflexivity. }
      rewrite (onMerkleBlock_accepted _ _ _ _ _ Ho) in *.
      destruct (onMerkleBlock_ordered_WAITING p m now w Hs) as [H|H]; [|exact H].
      now elim Hne.
  - exfalso. apply Hne.
    now apply (handle_keeps_chainState (chainState w) (OnTx p m)).
  - exfalso. apply Hne.
    now apply (handle_keeps_chainState (chainState w) (OnInv p m)).
  - exfalso. apply Hne.
    now apply (handle_keeps_chainState (chainState w) (OnGetData p m)).
  - exfalso. apply Hne.
    now apply (handle_keeps_chainState (chainState w) (FPositiveHandler sel)).
Qed.

(** ** Heights from blocks to transactions *)

Lemma onMerkleBlock_new_toDownload (p : Peer) (m : MsgMerkleBlock) (now : Z)
    (w w1 : Wallet) (txids : list Hash) (h : Z) (x1 : Ext) :
  orderCheck C p m w = Some w1 ->
  checkMBlock C m = inl txids ->
  CommitHeader C (Header m) (ext w1) = ((true, None, h, None), x1) ->
  forall k, toDownload (st (onMerkleBlock C p m now w)) !! k =
            if decide (k ∈ txids) then Some (to_int32 h) else toDownload w !! k.
Proof.
  intros Ho Hc Hcommit k.
  rewrite (onMerkleBlock_accepted _ _ _ _ _ Ho).
  destruct (orderCheck_frame _ _ _ _ Ho) as (_ & Htd & _).
  rewrite (onMerkleBlock_ordered_new p m now w1 txids h x1 Hc Hcommit).
  set (w2 := with_toDownload _ _).
  destruct (sweep_sameEngine now w2 w2) as [_ (_ & _ & Hs3 & _)]; [now repeat split|].
  cbn [st]. rewrite Hs3. unfold w2. cbn [toDownload with_toDownload with_ext].
  rewrite lookup_recorded. now rewrite Htd.
Qed.

(** The height that [onMerkleBlock] records for a matched transaction is
    the height that [onTx] hands to the store when the transaction comes in
    afterwards, from whatever peer. *)
Theorem onTx_after_onMerkleBlock (p q : Peer) (m : MsgMerkleBlock) (now : Z)
    (w w1 : Wallet) (txids : list Hash) (h : Z) (x1 : Ext) (tx : MsgTx) :
  orderCheck C p m w = Some w1 ->
  checkMBlock C m = inl txids ->
  CommitHeader C (Header m) (ext w1) = ((true, None, h, None), x1) ->
  TxHash C tx ∈ txids ->
  EvIngest tx (to_int32 h) ∈ evs (onTx C q tx (st (onMerkleBlock C p m now w))).
Proof.
  intros Ho Hc Hcommit Hin. rewrite onTx_run. cbn [evs].
  rewrite (onMerkleBlock_new_toDownload p m now w w1 txids h x1 Ho Hc Hcommit).
  rewrite decide_True by exact Hin. cbn [default from_option id app].
  rewrite !elem_of_cons. right. right. now left.
Qed.

(** ** Transactions that the sweep spares *)



(** ** The staleness sweep of [onMerkleBlock] *)

Lemma orderCheck_waiting (p : Peer) (m : MsgMerkleBlock) (w : Wallet) :
  chainState w = WAITING -> orderCheck C p m w = Some w.
Proof.
  intros Hs. unfold orderCheck. rewrite syncingWith_run. cbn [out]. rewrite Hs.
  now rewrite bool_decide_eq_false_2 by discriminate.
Qed.

Lemma onMerkleBlock_waiting_run (p : Peer) (m : MsgMerkleBlock) (now : Z) (w : Wallet)
    (txids : list Hash) (h : Z) (x1 : Ext) (txns : list Txn) :
  checkMBlock C m = inl txids ->
  CommitHeader C (Header m) (ext w) = ((true, None, h, None), x1) ->
  Txns_GetAll C false x1 = inl txns ->
  chainState w = WAITING ->
  let r := onMerkleBlock C p m now w in
  out r = Ok tt /\
  ext (st r) = sweepStore C now (rev txns) x1 /\
  evs r = (EvCommitHeader (Header m) :: concat (map (fun _ => [EvLock; EvUnlock]) txids) ++
           [EvLog "Received Merkle Block"; EvGetAll]) ++
          sweepEffects C now (rev txns) x1.
Proof.
  intros Hc Hcommit Hall Hs r. subst r.
  rewrite (onMerkleBlock_accepted p m now w w (orderCheck_waiting p m w Hs)).
  rewrite (onMerkleBlock_ordered_new p m now w txids h x1 Hc Hcommit).
  rewrite Hs, andb_false_r.
  rewrite (sweep_waiting now _ txns) by (try exact Hs; exact Hall).
  cbn [out st evs ext with_ext with_toDownload app].
  repeat split. now rewrite <- app_assoc.
Qed.

(** C6: the staleness sweep is part of [onMerkleBlock] and runs only when
    the chain state is WAITING.  When a block is accepted in that state
    (valid proof, new header, no reorg), the handler commits the header,
    records the matched ids, logs the block and reads the unconfirmed
    transactions from the store; it then visits them from the last to the
    first, and the effects of the whole handler are exactly those, followed
    by the effects of the sweep.  The hashes handed to [markAsDead] are, in
    that order, those of the transactions whose height is 0 and whose
    timestamp is more than seven days before [now], and of no other.  For
    the transaction [t] visited after [l1] and before [l2]:
    - if [t] is not stale it causes no effect at all;
    - if [t] is stale and is marked dead, it is announced in the log and
      handed to [markAsDead];
    - if [t] is stale and its id does not parse, the error is logged and
      [markAsDead] is not called for it;
    - if [t] is stale and [markAsDead] fails, the error is logged;
    and in each case the sweep goes on with the transactions of [l2].  The
    handler returns normally.  In no state other than WAITING does
    [onMerkleBlock] read the unconfirmed transactions or mark one dead. *)
Theorem onMerkleBlock_sweeps_stale (p : Peer) (m : MsgMerkleBlock) (now : Z) (w : Wallet)
    (txids : list Hash) (h : Z) (x1 : Ext) (txns : list Txn) :
  checkMBlock C m = inl txids ->
  CommitHeader C (Header m) (ext w) = ((true, None, h, None), x1) ->
  Txns_GetAll C false x1 = inl txns ->
  chainState w = WAITING ->
  let r := onMerkleBlock C p m now w in
  let accepted : list Ev :=
    EvCommitHeader (Header m) :: concat (map (fun _ => [EvLock; EvUnlock]) txids) ++
    [EvLog "Received Merkle Block"; EvGetAll] in
  out r = Ok tt /\
  ext (st r) = sweepStore C now (rev txns) x1 /\
  evs r = accepted ++ sweepEffects C now (rev txns) x1 /\
  markedDead (evs r) = omap (deadHash C now) (rev txns) /\
  (forall l1 t l2,
     rev txns = l1 ++ t :: l2 ->
     let x := sweepStore C now l1 x1 in
     let before := accepted ++ sweepEffects C now l1 x1 in
     (~ Stale now t ->
        evs r = before ++ sweepEffects C now l2 x) /\
     (forall hh x2,
        Stale now t -> NewHashFromStr C (Txid t) = inl hh ->
        markAsDead C hh x = (None, x2) ->
        evs r = before ++ [EvLog "Marking tx as dead"; EvMarkAsDead hh] ++
                sweepEffects C now l2 x2) /\
     (forall e,
        Stale now t -> NewHashFromStr C (Txid t) = inr e ->
        evs r = before ++ [EvLog "Marking tx as dead"; EvLog e] ++
                sweepEffects C now l2 x) /\
     (forall hh e x2,
        Stale now t -> NewHashFromStr C (Txid t) = inl hh ->
        markAsDead C hh x = (Some e, x2) ->
        evs r = before ++ [EvLog "Marking tx as dead"; EvMarkAsDead hh; EvLog e] ++
                sweepEffects C now l2 x2)) /\
  (forall q m' w0 e,
     e ∈ evs (onMerkleBlock C q m' now w0) -> isSweep e = true -> chainState w0 = WAITING).
Proof.
  intros Hc Hcommit Hall Hs r accepted.
  destruct (onMerkleBlock_waiting_run p m now w txids h x1 txns Hc Hcommit Hall Hs)
    as (Ho & Hx & He).
  fold r in Ho, Hx, He. fold accepted in He.
  split; [exact Ho|]. split; [exact Hx|]. split; [exact He|]. split; [|split].
  - rewrite He, markedDead_app, sweepEffects_marked.
    replace (markedDead accepted) with (@nil Hash); [reflexivity|].
    subst accepted. change (markedDead (?e :: ?l)) with (markedDead l) at 1.
    rewrite markedDead_app.
    replace (markedDead (concat (map (fun _ => [EvLock; EvUnlock]) txids) : list Ev))
      with (@nil Hash); [reflexivity|].
    clear. induction txids as [|a l IH]; [reflexivity | exact IH].
  - intros l1 t l2 Hrev x before.
    assert (Hsplit : evs r = before ++ sweepEffects C now (t :: l2) x).
    { rewrite He, Hrev, sweepEffects_app. subst before. now rewrite <- app_assoc. }
    cbn [sweepEffects] in Hsplit.
    repeat split.
    + intros Hn. rewrite Hsplit. now destruct (decide (Stale now t)).
    + intros hh x2 Hst Hp Hm. rewrite Hsplit. destruct (decide (Stale now t)); [|tauto].
      now rewrite Hp, Hm.
    + intros e Hst Hp. rewrite Hsplit. destruct (decide (Stale now t)); [|tauto].
      now rewrite Hp.
    + intros hh e x2 Hst Hp Hm. rewrite Hsplit. destruct (decide (Stale now t)); [|tauto].
      now rewrite Hp, Hm.
  - intros q m' w0 e Hin Hsw. destruct (chainState w0) eqn:Hs0; [|reflexivity].
    destruct (onMerkleBlock_no_sweep q m' now w0 Hs0) as [Hf _].
    rewrite Forall_forall in Hf. rewrite (Hf e Hin) in Hsw. discriminate.
Qed.


(** ** Who is disconnected, and when *)

Lemma recv_blockQueue_out (w : Wallet) :
  out (recv_blockQueue (MsgTx := MsgTx) (Filter := Filter) w) =
  match buf (blockQueue w) with
  | front :: _ => Ok front
  | [] => if closed (blockQueue w) then Ok zeroHash else Blocked
  end.
Proof.
  unfold recv_blockQueue.
  destruct (buf (blockQueue w)); [destruct (closed (blockQueue w))|]; reflexivity.
Qed.

(** A peer is disconnected by no handler but [onMerkleBlock], and by that
    one only as the sender of the block, in one of three cases:
    - the proof of the block is invalid;
    - the wallet is syncing with the peer, the queue holds a hash, and the
      block is not the one at the front of the queue;
    - the wallet is syncing with the peer and the queue is closed and
      empty: the receive then yields the zero hash, which the hash of the
      block is compared with.
    In the third case the peer is indeed disconnected, whatever block with
    a hash other than zero it delivers, be it the very block that was
    requested from it.  A failure of the store or of the header commit
    disconnects nobody. *)
Theorem disconnects_only_refused_sender (w : Wallet) (q : Peer) :
  (forall h : Handler MsgTx,
     EvDisconnect q ∈ evs (handle C h w) ->
     exists m now,
       h = OnMerkleBlock q m now /\
       ((exists e, checkMBlock C m = inr e) \/
        (out (syncingWith C q w) = Ok true /\
         exists front rest,
           buf (blockQueue w) = front :: rest /\ BlockHash C (Header m) <> front) \/
        (out (syncingWith C q w) = Ok true /\
         buf (blockQueue w) = [] /\ closed (blockQueue w) = true /\
         BlockHash C (Header m) <> zeroHash))) /\
  (forall m now,
     out (syncingWith C q w) = Ok true ->
     buf (blockQueue w) = [] -> closed (blockQueue w) = true ->
     BlockHash C (Header m) <> zeroHash ->
     let r := onMerkleBlock C q m now w in
     out r = Ok tt /\ st r = w /\
     evs r = [EvLog "Peer is sending us blocks out of order"; EvDisconnect q]).
Proof.
  split.
  - intros h Hin.
    assert (Hno : forall l : list Ev, Forall keepsPeer l -> EvDisconnect q ∈ l -> False).
    { intros l Hl Hq. rewrite Forall_forall in Hl. exact (Hl _ Hq). }
    destruct h as [p|p m now|p m|p m|p m|sel];
      try (exfalso; refine (Hno _ (handle_keepsPeer _ w _) Hin); intros ? ? ?; discriminate).
    cbn [handle] in Hin.
    assert (Hord : forall w', EvDisconnect q ∈ evs (onMerkleBlock_ordered C p m now w') ->
                              q = p /\ exists e, checkMBlock C m = inr e).
    { intros w' Hq. destruct (checkMBlock C m) as [txids|e] eqn:Hc.
      - exfalso. exact (Hno _ (onMerkleBlock_ordered_keepsPeer p m now w' txids Hc) Hq).
      - unfold onMerkleBlock_ordered in Hq. rewrite Hc in Hq. cbn in Hq.
        apply elem_of_cons in Hq as [Hq|Hq]; [discriminate|].
        apply elem_of_cons in Hq as [Hq|Hq]; [|now apply elem_of_nil in Hq].
        injection Hq as ->. eauto. }
    unfold onMerkleBlock in Hin. rewrite bind_eq, syncingWith_run in Hin.
    cbn [out st evs app] in Hin.
    destruct (bool_decide (chainState w = SYNCING) && _) eqn:G.
    + rewrite bind_eq in Hin.
      pose proof (recv_blockQueue_out w) as Hrecv.
      destruct (out (recv_blockQueue w)) as [queueHash| |] eqn:Hq;
        cbn [evs] in Hin; rewrite recv_blockQueue_evs in Hin;
        try (now apply elem_of_nil in Hin).
      cbn [app] in Hin.
      destruct (BlockHash C (Header m) =? queueHash) eqn:Hh; cbn [negb] in Hin.
      * destruct (Hord _ Hin) as [-> He]. exists m, now. split; [reflexivity | now left].
      * cbn in Hin. apply elem_of_cons in Hin as [Hin|Hin]; [discriminate|].
        apply elem_of_cons in Hin as [Hin|Hin]; [|now apply elem_of_nil in Hin].
        injection Hin as ->. exists m, now. split; [reflexivity|]. right.
        apply Z.eqb_neq in Hh.
        assert (Hg : out (syncingWith C p w) = Ok true)
          by (rewrite syncingWith_run; cbn [out]; now rewrite G).
        destruct (buf (blockQueue w)) as [|front rest] eqn:Hb.
        -- right. destruct (closed (blockQueue w)); [|discriminate].
           injection Hrecv as ->. now repeat split.
        -- left. injection Hrecv as ->. split; [exact Hg|]. now exists front, rest.
    + destruct (Hord _ Hin) as [-> He]. exists m, now. split; [reflexivity | now left].
  - intros m now Hg Hb Hcl Hh r. subst r.
    rewrite syncingWith_run in Hg. cbn [out] in Hg. injection Hg as Hg.
    unfold onMerkleBlock. rewrite bind_eq, syncingWith_run. cbn [out st evs app].
    rewrite Hg. unfold recv_blockQueue. rewrite bind_eq, Hb, Hcl. cbn [out st evs app].
    apply Z.eqb_neq in Hh. rewrite Hh. cbn [negb]. run. now repeat split.
Qed.


End EngineFacts.

(** * The handlers on the scripted collaborators *)

Section Scenarios.

Import Demo.

(** A block whose hash is 22 arrives while 21 is expected. *)
Lemma onMerkleBlock_out_of_order_witness :
  let w := syncing script in
  let r := onMerkleBlock scripted alice (block 22 [3; 4]) 0 w in
  (chainState w = SYNCING /\
   DownloadPeer scripted (ext w) = Some alice /\
   out (recv_blockQueue (MsgTx := Z) (Filter := Z) w) = Ok 21 /\
   BlockHash scripted (Header (block 22 [3; 4])) <> 21) /\
  evs r = [EvLog "Peer is sending us blocks out of order"; EvDisconnect alice] /\
  st r = mkSPVWallet SYNCING (mkChan [22] 32 false) ∅ ∅ script.
Proof.
  intros w r.
  assert (Hne : BlockHash scripted (Header (block 22 [3; 4])) <> 21) by (vm_compute; discriminate).
  split; [repeat split; try reflexivity; exact Hne|].
  destruct (onMerkleBlock_out_of_order scripted alice alice (block 22 [3; 4]) 0 w 21
              eq_refl eq_refl eq_refl eq_refl Hne) as (_ & He & _ & Hs & _).
  split; [exact He | exact Hs].
Defined.


(** Block 21 arrives in order but its header is already known. *)
Lemma onMerkleBlock_pops_first_witness :
  let x := withCommit (false, None, 0, None) script in
  let w := syncing x in
  let r := onMerkleBlock scripted alice (block 21 [3; 4]) 0 w in
  (buf (blockQueue w) = [21; 22] /\
   BlockHash scripted (Header (block 21 [3; 4])) = 21 /\
   notCommitted scripted (block 21 [3; 4]) (ext w) = true) /\
  blockQueue (st r) = mkChan [22] 32 false /\
  toDownload (st r) = ∅.
Proof.
  intros x w r.
  split; [repeat split; reflexivity|].
  destruct (onMerkleBlock_pops_first scripted alice alice (block 21 [3; 4]) 0 w 21 [22]
              eq_refl eq_refl eq_refl eq_refl eq_refl eq_refl)
    as (_ & Hq & _ & _ & _ & Ht & _).
  split; [exact Hq | exact Ht].
Defined.


(** Seven and eight misses of a peer that had none. *)
Lemma fPositiveHandler_threshold_witness :
  let w := waiting script in
  let r7 := fPositiveHandler scripted (replicate 7 (FromFPositives alice) ++ [FromQuit]) w in
  let r8 := fPositiveHandler scripted (replicate 8 (FromFPositives alice) ++ [FromQuit]) w in
  default 0 (fpAccumulator w !! ID alice) = 0 /\
  fpAccumulator (st r7) !! ID alice = Some 7 /\
  fpAccumulator (st r8) !! ID alice = Some 0 /\
  EvQueueMessage alice (MsgFilterLoad 99) ∈ evs r8.
Proof.
  intros w r7 r8. split; [reflexivity|].
  destruct (fPositiveHandler_threshold scripted alice w eq_refl)
    as ((_ & _ & H7) & (_ & _ & H8 & Hf)).
  split; [exact H7|]. split; [exact H8|]. exact (Hf 99 eq_refl).
Defined.

(** The peer is at height 500 as is the chain, and no peer has more. *)
Lemma startChainDownload_complete_witness :
  let w := syncing script in
  let r := startChainDownload scripted alice w in
  (chainState w = SYNCING /\
   to_uint32 (LastBlock alice) <= db_Height scripted (ext w)) /\
  chainState (st r) = WAITING /\
  closed (blockQueue (st r)) = true /\
  evs r = [EvLock; EvHeight; EvCheckForMoreBlocks 500; EvLog "Chain download complete";
           EvSetChainState WAITING; EvGetPendingInv;
           EvQueueMessage alice (MsgInv [mkInvVect InvTypeTx 41]);
           EvQueueMessage bob (MsgInv [mkInvVect InvTypeTx 41]);
           EvCloseBlockQueue; EvUnlock].
Proof.
  intros w r.
  assert (Hh : to_uint32 (LastBlock alice) <= db_Height scripted (ext w))
    by (vm_compute; discriminate).
  split; [split; [reflexivity | exact Hh]|].
  destruct (startChainDownload_complete scripted alice w eq_refl Hh) as (_ & _ & Hdone).
  destruct (Hdone eq_refl) as (Hc & Hp).
  destruct (Hp [mkInvVect InvTypeTx 41] eq_refl) as (Hs & He & _).
  split; [exact Hc|]. split; [|exact He].
  fold r in Hs. rewrite Hs. reflexivity.
Defined.

(** An inventory of a transaction, a block and a transaction arrives after a
    reorganisation has sent the wallet back to syncing. *)
Lemma onInv_push_after_close_witness :
  let w := resyncing script in
  let r := onInv scripted alice
                 ([mkInvVect InvTypeTx 6] ++ mkInvVect InvTypeBlock 5 :: [mkInvVect InvTypeTx 8]) w in
  (chainState w = SYNCING /\ closed (blockQueue w) = true) /\
  out r = Ok tt /\
  st r = w /\
  evs r = [EvQueueMessage alice (MsgGetData [mkInvVect InvTypeTx 6]);
           EvQueueMessage alice (MsgGetData [mkInvVect InvTypeFilteredBlock 5]);
           EvLog "send on closed channel"].
Proof.
  intros w r. split; [split; reflexivity|].
  assert (Hl : Forall (fun i => inv_Type i <> InvTypeBlock) [mkInvVect InvTypeTx 6]).
  { constructor; [discriminate | constructor]. }
  destruct (onInv_push_after_close scripted alice alice w (mkInvVect InvTypeBlock 5)
              [mkInvVect InvTypeTx 6] [mkInvVect InvTypeTx 8]
              eq_refl eq_refl eq_refl eq_refl eq_refl Hl) as (_ & Ho & Hs & He & _).
  split; [exact Ho|]. split; [exact Hs|]. exact He.
Defined.


(** C3, as stated, fails for a peer that advertises a negative height: the
    chain is at 500, above -1, and no peer has more, yet the comparison is
    made on [uint32(-1)] and the handler asks the peer for more blocks; the
    chain state stays SYNCING and the queue stays open. *)
Lemma startChainDownload_negative_height :
  let w := syncing script in
  let r := startChainDownload scripted bob w in
  (chainState w = SYNCING /\
   LastBlock bob <= db_Height scripted (ext w) /\
   fst (CheckForMoreBlocks scripted (db_Height scripted (ext w)) (ext w)) = false) /\
  chainState (st r) = SYNCING /\
  closed (blockQueue (st r)) = false /\
  evs r = [EvLock; EvHeight; EvGetBlockLocatorHashes;
           EvQueueMessage bob (MsgGetBlocks [7; 6; 5] 0); EvUnlock].
Proof.
  intros w r. split; [repeat split; try reflexivity; vm_compute; discriminate|].
  repeat split; reflexivity.
Qed.

(** C4, as stated, fails.  The download ends, which closes the queue, and
    the commit of a later block reports a reorg, which sets the chain state
    back to SYNCING.  On the inventory that follows, the push on the closed
    queue is a run-time error, and the transaction announced after the block
    is never requested, while the same inventory on an open queue requests
    both. *)
Lemma onInv_closed_queue_drops_rest :
  let m := [mkInvVect InvTypeBlock 5; mkInvVect InvTypeTx 6] in
  let x := withCommit (true, Some (mkReorg 300 (header 9)), 310, None) script in
  let w := handleAll scripted
             [StartChainDownload alice; OnMerkleBlock alice (block 30 [3]) 0]
             (syncing x) in
  (chainState w = SYNCING /\ closed (blockQueue w) = true) /\
  out (send_blockQueue (MsgTx := Z) (Filter := Z) 5 w) = Panic "send on closed channel" /\
  evs (onInv scripted alice m w) =
    [EvQueueMessage alice (MsgGetData [mkInvVect InvTypeFilteredBlock 5]);
     EvLog "send on closed channel"] /\
  evs (onInv scripted alice m (syncing x)) =
    [EvQueueMessage alice (MsgGetData [mkInvVect InvTypeFilteredBlock 5]);
     EvQueueMessage alice (MsgGetData [mkInvVect InvTypeTx 6])].
Proof. repeat split; reflexivity. Qed.

(** C5, as stated, fails when the store cannot build the filter: after eight
    misses in a row the counter is 0 and nothing has been sent to the peer. *)
Lemma fPositiveHandler_eighth_miss_without_filter :
  let w := waiting (withFilter (inr "no filter") script) in
  let r := fPositiveHandler scripted (replicate 8 (FromFPositives alice) ++ [FromQuit]) w in
  default 0 (fpAccumulator w !! ID alice) = 0 /\
  out r = Ok tt /\
  fpAccumulator (st r) !! ID alice = Some 0 /\
  filter (fun e : Event Z Z => isSend e = true) (evs r) = [].
Proof. repeat split; reflexivity. Qed.

(** C7, as stated, fails when the store cannot build the filter: the
    transaction has one hit, and no filter is sent to the peer. *)
Lemma onTx_hit_without_filter :
  let w := waiting (withIngest (1, None) (withFilter (inr "no filter") script)) in
  let r := onTx scripted alice 77 w in
  fst (Ingest scripted 77 0 (ext w)) = (1, None) /\
  evs r = [EvRLock; EvRUnlock; EvIngest 77 0; EvGimmeFilter; EvLog "Error creating filter";
           EvLog "Tx ingested and matches utxo/adrs."] /\
  filter (fun e : Event Z Z => isSend e = true) (evs r) = [].
Proof. repeat split; reflexivity. Qed.


(** [startChainDownload] for a peer at 600 while the chain is at 500. *)
Lemma startChainDownload_requests_witness :
  let carol := mkPeer 3 600 in
  let w := syncing script in
  let r := startChainDownload scripted carol w in
  (chainState w = SYNCING /\ db_Height scripted (ext w) < to_uint32 (LastBlock carol)) /\
  st r = w /\
  sends (evs r) = [EvQueueMessage carol (MsgGetBlocks [7; 6; 5] 0)].
Proof.
  intros carol w r.
  assert (Hh : db_Height scripted (ext w) < to_uint32 (LastBlock carol)) by reflexivity.
  split; [split; [reflexivity | exact Hh]|].
  destruct (startChainDownload_requests scripted carol w eq_refl Hh) as (_ & Hs & He & _).
  split; [exact Hs | exact He].
Defined.

(** [startChainDownload] for a peer whose last block is -1. *)
Lemma startChainDownload_negative_LastBlock_witness :
  let w := syncing script in
  let r := startChainDownload scripted bob w in
  (-(2 ^ 31) <= LastBlock bob < 0 /\ 0 <= db_Height scripted (ext w) < 2 ^ 31) /\
  chainState (st r) = SYNCING /\
  EvQueueMessage bob (MsgGetBlocks [7; 6; 5] 0) ∈ evs r.
Proof.
  intros w r.
  assert (Hl : -(2 ^ 31) <= LastBlock bob < 0) by (split; [discriminate | reflexivity]).
  assert (Hh : 0 <= db_Height scripted (ext w) < 2 ^ 31)
    by (split; [discriminate | reflexivity]).
  split; [split; assumption|].
  destruct (startChainDownload_negative_LastBlock scripted bob w eq_refl Hl Hh)
    as (Hs & _ & He).
  split; [exact Hs | exact He].
Defined.

(** Block 21 arrives in order and extends the chain at height 501. *)
Lemma onMerkleBlock_records_heights_witness :
  let w := syncing script in
  let r := onMerkleBlock scripted alice (block 21 [3; 4]) 0 w in
  (orderCheck scripted alice (block 21 [3; 4]) w
     = Some (mkSPVWallet SYNCING (mkChan [22] 32 false) ∅ ∅ script) /\
   checkMBlock scripted (block 21 [3; 4]) = inl [3; 4]) /\
  toDownload (st r) !! 3 = Some 501 /\
  toDownload (st r) !! 4 = Some 501 /\
  toDownload (st r) !! 5 = None /\
  blockQueue (st r) = mkChan [22] 32 false.
Proof.
  intros w r. split; [split; reflexivity|].
  destruct (onMerkleBlock_records_heights scripted alice (block 21 [3; 4]) 0 w
              (mkSPVWallet SYNCING (mkChan [22] 32 false) ∅ ∅ script) [3; 4] 501
              (commit (header 21) script) eq_refl eq_refl eq_refl)
    as (_ & Hk & _ & Hq & _).
  split; [exact (Hk 3)|]. split; [exact (Hk 4)|]. split; [exact (Hk 5) | exact Hq].
Defined.

(** An inventory of two blocks, a transaction and an item of another type
    from the download peer. *)
Lemma onInv_registers_witness :
  let m := [mkInvVect InvTypeBlock 30; mkInvVect InvTypeTx 6;
            mkInvVect InvTypeError 7; mkInvVect InvTypeBlock 31] in
  let w := syncing script in
  let r := onInv scripted alice m w in
  (closed (blockQueue w) = false /\
   (length (buf (blockQueue w)) + length (announced m) <= cap (blockQueue w))%nat) /\
  evs r = [EvQueueMessage alice (MsgGetData [mkInvVect InvTypeFilteredBlock 30]);
           EvQueueMessage alice (MsgGetData [mkInvVect InvTypeTx 6]);
           EvQueueMessage alice (MsgGetData [mkInvVect InvTypeFilteredBlock 31])] /\
  blockQueue (st r) = mkChan [21; 22; 30; 31] 32 false.
Proof.
  intros m w r.
  assert (Hl : (length (buf (blockQueue w)) + length (announced m) <= cap (blockQueue w))%nat)
    by (vm_compute; repeat constructor).
  split; [split; [reflexivity | exact Hl]|].
  destruct (onInv_registers scripted alice alice m w eq_refl eq_refl eq_refl eq_refl Hl)
    as (_ & He & Hq & _).
  split; [exact He | exact Hq].
Defined.

(** The same inventory from a peer that is not the download peer, on a
    closed queue. *)
Lemma onInv_other_peer_witness :
  let m := [mkInvVect InvTypeBlock 30; mkInvVect InvTypeTx 6] in
  let w := resyncing script in
  (chainState w = SYNCING ->
   forall d, DownloadPeer scripted (ext w) = Some d -> ID d <> ID bob) /\
  onInv scripted bob m w =
  mkRes (Ok tt) w
        [EvQueueMessage bob (MsgGetData [mkInvVect InvTypeFilteredBlock 30]);
         EvQueueMessage bob (MsgGetData [mkInvVect InvTypeTx 6])].
Proof.
  intros m w.
  assert (H : chainState w = SYNCING ->
              forall d, DownloadPeer scripted (ext w) = Some d -> ID d <> ID bob).
  { intros _ d Hd. injection Hd as <-. discriminate. }
  split; [exact H|].
  exact (onInv_other_peer scripted bob m w H).
Defined.


(** One pending transaction is announced to the two connected peers. *)
Lemma Rebroadcast_announces_witness :
  let w := waiting script in
  let r := Rebroadcast scripted w in
  fst (GetPendingInv scripted (ext w)) = Some [mkInvVect InvTypeTx 41] /\
  st r = w /\
  sends (evs r) = [EvQueueMessage alice (MsgInv [mkInvVect InvTypeTx 41]);
                   EvQueueMessage bob (MsgInv [mkInvVect InvTypeTx 41])].
Proof.
  intros w r. split; [reflexivity|].
  destruct (Rebroadcast_announces scripted w [mkInvVect InvTypeTx 41] eq_refl)
    as (_ & Hs & He).
  split; [exact Hs | exact He].
Defined.

(** Nine misses of one peer with three of another in between. *)
Lemma fPositiveHandler_counts_witness :
  let a := FromFPositives alice in
  let b := FromFPositives bob in
  let sel := [a; a; b; a; a; a; b; a; a; a; b; a; FromQuit; a] in
  let w := waiting script in
  let r := fPositiveHandler scripted sel w in
  bounded w /\
  default 0 (fpAccumulator (st r) !! ID alice) = 1 /\
  default 0 (fpAccumulator (st r) !! ID bob) = 3.
Proof.
  intros a b sel w r.
  assert (Hb : bounded w) by apply map_Forall_empty.
  split; [exact Hb|]. split.
  - exact (proj2 (fPositiveHandler_counts scripted sel (ID alice) w Hb)).
  - exact (proj2 (fPositiveHandler_counts scripted sel (ID bob) w Hb)).
Defined.


(** Calls of every handler on a wallet without counters. *)
Lemma counters_stay_bounded_witness :
  let a := FromFPositives alice in
  let hs := [FPositiveHandler [a; a; a; a; a; a; a; a; a; FromQuit];
             OnTx alice 77; OnInv alice [mkInvVect InvTypeBlock 30];
             OnMerkleBlock alice (block 21 [3]) 0; StartChainDownload alice;
             OnGetData bob [mkInvVect InvTypeTx 3]; FPositiveHandler [a]] in
  let w := syncing script in
  bounded w /\ bounded (handleAll scripted hs w).
Proof.
  intros a hs w.
  assert (Hb : bounded w) by apply map_Forall_empty.
  split; [exact Hb|]. exact (counters_stay_bounded scripted hs w Hb).
Defined.

(** The height of transaction 3 survives the calls that follow. *)
Lemma toDownload_never_forgets_witness :
  let hs := [OnTx alice 3; OnMerkleBlock alice (block 21 [4]) 0; StartChainDownload alice;
             OnInv alice [mkInvVect InvTypeTx 3]; OnGetData alice [mkInvVect InvTypeTx 3]] in
  let w := mkSPVWallet SYNCING (mkChan [21; 22] 32 false) {[ 3 := 501 ]} ∅ script in
  is_Some (toDownload w !! 3) /\ is_Some (toDownload (handleAll scripted hs w) !! 3).
Proof.
  intros hs w.
  assert (H : is_Some (toDownload w !! 3)) by (exists 501; reflexivity).
  split; [exact H|]. exact (toDownload_never_forgets scripted hs 3 w H).
Defined.

(** The end of the download takes the chain state from SYNCING to WAITING. *)
Lemma chainState_transitions_witness :
  let h := StartChainDownload alice in
  let w := syncing script in
  chainState (st (handle scripted h w)) <> chainState w /\
  ((chainState w = SYNCING /\ exists p, h = StartChainDownload p) \/
   (chainState w = WAITING /\
    exists p m now, h = OnMerkleBlock p m now /\
                    EvGoStartChainDownload p ∈ evs (handle scripted h w))).
Proof.
  intros h w.
  assert (Hne : chainState (st (handle scripted h w)) <> chainState w) by discriminate.
  split; [exact Hne|]. exact (chainState_transitions scripted h w Hne).
Defined.

(** Transaction 3 is matched by block 21 and then comes from another peer. *)
Lemma onTx_after_onMerkleBlock_witness :
  let w := syncing script in
  let w' := st (onMerkleBlock scripted alice (block 21 [3; 4]) 0 w) in
  TxHash scripted 3 ∈ [3; 4] /\
  EvIngest 3 501 ∈ evs (onTx scripted bob 3 w').
Proof.
  intros w w'.
  assert (Hin : TxHash scripted 3 ∈ [3; 4]) by apply list_elem_of_here.
  split; [exact Hin|].
  exact (onTx_after_onMerkleBlock scripted alice bob (block 21 [3; 4]) 0 w
           (mkSPVWallet SYNCING (mkChan [22] 32 false) ∅ ∅ script) [3; 4] 501
           (commit (header 21) script) 3 eq_refl eq_refl eq_refl Hin).
Defined.



(** A block accepted in the WAITING state on day 1000, with the six
    transactions of the script in the store: the sweep visits them from the
    last to the first, marks "0c" (which the store refuses) and "0a" dead,
    logs the id that does not parse, and leaves the other three alone. *)
Lemma onMerkleBlock_sweeps_stale_witness :
  let w := waiting script in
  let m := block 30 [3] in
  let now := 1000 * day in
  let x1 := snd (CommitHeader scripted (Header m) (ext w)) in
  let r := onMerkleBlock scripted bob m now w in
  (checkMBlock scripted m = inl [3] /\
   CommitHeader scripted (Header m) (ext w) = ((true, None, 501, None), x1) /\
   Txns_GetAll scripted false x1 = inl txns /\
   chainState w = WAITING) /\
  out r = Ok tt /\
  markedDead (evs r) = [12; 10] /\
  evs r = [EvCommitHeader (Header m); EvLock; EvUnlock;
           EvLog "Received Merkle Block"; EvGetAll;
           EvLog "Marking tx as dead"; EvMarkAsDead 12; EvLog "cannot mark as dead";
           EvLog "Marking tx as dead"; EvLog "encoding/hex: invalid byte";
           EvLog "Marking tx as dead"; EvMarkAsDead 10] /\
  s_dead (ext (st r)) = [10].
Proof.
  intros w m now x1 r.
  split; [repeat split; reflexivity|].
  destruct (onMerkleBlock_sweeps_stale scripted bob m now w [3] 501 x1 txns
              eq_refl eq_refl eq_refl eq_refl) as (Ho & Hx & He & Hm & _).
  fold r in Ho, Hx, He, Hm.
  split; [exact Ho|].
  split; [rewrite Hm; reflexivity|].
  split; [rewrite He; reflexivity|].
  rewrite Hx. reflexivity.
Defined.


(** The download ends, which closes the queue; the commit of a later block
    reports a reorg, which sets the chain state back to SYNCING with the
    queue closed and empty.  The download peer then delivers block 31 and
    is disconnected: the hash of the block is compared with the zero hash. *)
Lemma disconnects_only_refused_sender_witness :
  let x := withCommit (true, Some (mkReorg 300 (header 9)), 310, None) script in
  let w := handleAll scripted
             [StartChainDownload alice; OnMerkleBlock alice (block 30 [3]) 0]
             (mkSPVWallet SYNCING (mkChan [] 32 false) ∅ ∅ x) in
  let m := block 31 [4] in
  let h := OnMerkleBlock alice m 0 in
  (out (syncingWith scripted alice w) = Ok true /\
   buf (blockQueue w) = [] /\ closed (blockQueue w) = true /\
   BlockHash scripted (Header m) <> zeroHash) /\
  evs (handle scripted h w) =
    [EvLog "Peer is sending us blocks out of order"; EvDisconnect alice] /\
  exists m' now,
    h = OnMerkleBlock alice m' now /\
    ((exists e, checkMBlock scripted m' = inr e) \/
     (out (syncingWith scripted alice w) = Ok true /\
      exists front rest,
        buf (blockQueue w) = front :: rest /\ BlockHash scripted (Header m') <> front) \/
     (out (syncingWith scripted alice w) = Ok true /\
      buf (blockQueue w) = [] /\ closed (blockQueue w) = true /\
      BlockHash scripted (Header m') <> zeroHash)).
Proof.
  intros x w m h.
  assert (Hh : BlockHash scripted (Header m) <> zeroHash) by (intros H; discriminate H).
  destruct (disconnects_only_refused_sender scripted w alice) as [Honly Hclosed].
  destruct (Hclosed m 0 eq_refl eq_refl eq_refl Hh) as (_ & _ & He).
  split; [now repeat split|].
  split; [exact He|].
  apply Honly. change (handle scripted h w) with (onMerkleBlock scripted alice m 0 w).
  rewrite He. apply list_elem_of_further, list_elem_of_here.
Defined.


End Scenarios.
